(** * FitnessCoach: the Xcode project patching scripts

    A shallow embedding of the three maintenance scripts of the repository,

      - [add_new_components_to_xcode.py]  (the manifest patcher),
      - [add_quick_components.py]         (the single-file patcher),
      - [add_files_to_xcode.py]           (same identity generator),

    and the properties of the manifest patcher and of the identity
    generator that the specification states.

    Python [str] values are modelled as lists of characters.  Only
    substring search, slicing and concatenation are applied to the manifest
    text, and these commute with the UTF-8 encoding, so a character is taken
    to be one [ascii] code unit. *)

From Stdlib Require Import Ascii String DecimalString.
From Stdlib Require Import List ZArith Lia Bool Arith.
Import ListNotations.

Local Open Scope list_scope.
Local Open Scope Z_scope.

(* ===================================================================== *)
(** * Python strings *)
(* ===================================================================== *)

Module PyStr.

Definition str := list ascii.

(** A string literal of the source. *)
Definition lit (s : string) : str := list_ascii_of_string s.

Definition TAB : ascii := ascii_of_nat 9.
Definition NL : ascii := ascii_of_nat 10.
Definition DQUOTE : ascii := ascii_of_nat 34.

Definition str_eq_dec : forall a b : str, {a = b} + {a <> b} :=
  list_eq_dec ascii_dec.

(** [len(s)] *)
Definition len (s : str) : Z := Z.of_nat (length s).

(** [s.startswith(p)] *)
Fixpoint prefixb (p s : str) : bool :=
  match p, s with
  | [], _ => true
  | _ :: _, [] => false
  | a :: p', b :: s' => Ascii.eqb a b && prefixb p' s'
  end.

(** [sub in s]: substring containment. *)
Fixpoint isin (sub s : str) : bool :=
  prefixb sub s ||
  match s with
  | [] => false
  | _ :: s' => isin sub s'
  end.

(** The scan behind [str.find]: the lowest index at which [sub] starts in
    [s], counted from [i]; [-1] when there is none. *)
Fixpoint find_aux (sub s : str) (i : Z) : Z :=
  if prefixb sub s then i
  else match s with
       | [] => -1
       | _ :: s' => find_aux sub s' (i + 1)
       end.

(** The scan behind [str.rfind]: the highest index. *)
Fixpoint rfind_aux (sub s : str) (i : Z) : Z :=
  match s with
  | [] => if prefixb sub s then i else -1
  | _ :: s' =>
      let r := rfind_aux sub s' (i + 1) in
      if 0 <=? r then r else if prefixb sub s then i else -1
  end.

(** Python's normalisation of a slice or search bound: a negative index
    counts from the end, and the result is clipped to [0, len]. *)
Definition clip (n : Z) (i : Z) : nat :=
  Z.to_nat (if i <? 0 then Z.max 0 (n + i) else Z.min i n).

(** [s[lo:hi]], either bound possibly omitted. *)
Definition slice (s : str) (lo hi : option Z) : str :=
  let l := match lo with None => 0%nat | Some i => clip (len s) i end in
  let h := match hi with None => length s | Some j => clip (len s) j end in
  firstn (h - l) (skipn l s).

(** [s.find(sub)] *)
Definition find (s sub : str) : Z := find_aux sub s 0.

(** [s.find(sub, start)] *)
Definition find_from (s sub : str) (start : Z) : Z :=
  let st := if start <? 0 then Z.max 0 (len s + start) else start in
  if len s <? st then -1
  else find_aux sub (skipn (Z.to_nat st) s) st.

(** [s.rfind(sub)] *)
Definition rfind (s sub : str) : Z := rfind_aux sub s 0.

(** [sep.join(parts)] *)
Fixpoint join (sep : str) (parts : list str) : str :=
  match parts with
  | [] => []
  | [x] => x
  | x :: rest => x ++ sep ++ join sep rest
  end.

(** Iterating a [str] yields its characters as one-character strings. *)
Definition chars (s : str) : list str := map (fun c => [c]) s.

(** [c.upper()] on one character of ASCII text, the only text the scripts
    apply it to: only [a]..[z] change. *)
Definition upper_char (c : ascii) : ascii :=
  let n := nat_of_ascii c in
  if ((97 <=? n) && (n <=? 122))%nat then ascii_of_nat (n - 32) else c.

(** [s.upper()] *)
Definition upper (s : str) : str := map upper_char s.

(** [s.replace(old, new)] for a non-empty [old]: scan from the left, and at
    each position where [old] starts emit [new] and jump past it.  [fuel]
    bounds the number of scan steps; [length s] always suffices. *)
Fixpoint replace_scan (fuel : nat) (old new s : str) : str :=
  match fuel with
  | O => s
  | S f =>
      if prefixb old s then new ++ replace_scan f old new (skipn (length old) s)
      else match s with
           | [] => []
           | c :: s' => c :: replace_scan f old new s'
           end
  end.

(** [s.replace(old, new)]; with an empty [old], [new] is put before every
    character and at the end. *)
Definition replace (s old new : str) : str :=
  match old with
  | [] => new ++ flat_map (fun c => c :: new) s
  | _ :: _ => replace_scan (length s) old new s
  end.

(** [str(n)] for a natural number. *)
Definition str_of_nat (n : nat) : str :=
  lit (NilEmpty.string_of_uint (Nat.to_uint n)).

(** [os.path.basename(p)] (posixpath): everything after the last slash. *)
Definition basename (p : str) : str :=
  slice p (Some (rfind p (lit "/") + 1)) None.

End PyStr.
Import PyStr.

(* ===================================================================== *)
(** * The [uuid] module, as far as the scripts use it *)
(* ===================================================================== *)

Module Uuid.

(** [uuid.uuid4()] is [UUID(bytes=os.urandom(16), version=4)]: the sixteen
    random bytes read as a big-endian integer, with the variant and version
    fields overwritten.  [r] is that integer; reducing it modulo [2^128]
    makes the definition total. *)
Definition uuid4 (r : Z) : Z :=
  let i := r mod 2 ^ 128 in
  let i := Z.land i (Z.lnot (Z.shiftl 49152 48)) in   (* int &= ~(0xc000 << 48) *)
  let i := Z.lor i (Z.shiftl 32768 48) in             (* int |= 0x8000 << 48 *)
  let i := Z.land i (Z.lnot (Z.shiftl 61440 64)) in   (* int &= ~(0xf000 << 64) *)
  Z.lor i (Z.shiftl 4 76).                            (* int |= version << 76 *)

(** One lowercase hexadecimal digit. *)
Definition hex_digit (d : Z) : ascii :=
  ascii_of_nat (Z.to_nat (if d <? 10 then 48 + d else 87 + d)).

(** The [k]-th hexadecimal digit of [n], counted from the least
    significant one. *)
Definition nibble (n : Z) (k : nat) : Z :=
  Z.land (Z.shiftr n (4 * Z.of_nat k)) 15.

(** ['%032x' % n] for [0 <= n < 2^128]. *)
Definition format_032x (n : Z) : str :=
  map (fun i => hex_digit (nibble n (31 - i))) (seq 0 32).

(** [UUID.__str__]: the 8-4-4-4-12 grouping of the 32 digits. *)
Definition to_str (n : Z) : str :=
  let x := format_032x n in
  slice x None (Some 8) ++ lit "-" ++
  slice x (Some 8) (Some 12) ++ lit "-" ++
  slice x (Some 12) (Some 16) ++ lit "-" ++
  slice x (Some 16) (Some 20) ++ lit "-" ++
  slice x (Some 20) None.

End Uuid.

(* ===================================================================== *)
(** * The world the scripts run in *)
(* ===================================================================== *)

(** The files on disk, the entropy source behind [os.urandom], and the
    console.  A file is held as the text that reading it in text mode
    yields and that writing it stores; the manifest is taken to have the
    line ends Xcode writes, so that Python's newline translation has
    nothing to translate.  A path is on disk when [fs] holds a text for
    it. *)
Record world := mkWorld {
  fs : str -> option str;   (* contents of the file at a path, if it exists *)
  entropy : nat -> Z;       (* the successive results of os.urandom(16) *)
  drawn : nat;              (* how many of them have been consumed *)
  stdout : list str         (* what print has written, oldest first *)
}.

Inductive exn := FileNotFoundError (path : str).

Inductive result (A : Type) :=
| Ok (a : A)
| Raise (e : exn).
Arguments Ok {A} a.
Arguments Raise {A} e.

(** Computations that read and change the world and may raise. *)
Definition M (A : Type) : Type := world -> result A * world.

Definition ret {A} (a : A) : M A := fun w => (Ok a, w).

Definition bind {A B} (c : M A) (k : A -> M B) : M B :=
  fun w =>
    match c w with
    | (Ok a, w') => k a w'
    | (Raise e, w') => (Raise e, w')
    end.

Declare Scope py_scope.
Delimit Scope py_scope with py.
Notation "x <- c ;; k" := (bind c (fun x => k))
  (at level 61, c at next level, right associativity) : py_scope.
Notation "c ;; k" := (bind c (fun _ => k))
  (at level 61, right associativity) : py_scope.
Local Open Scope py_scope.

(** [os.path.exists(p)] *)
Definition os_path_exists (p : str) : M bool :=
  fun w => (Ok (match fs w p with Some _ => true | None => false end), w).

(** [with open(p, 'r') as f: f.read()] *)
Definition read_file (p : str) : M str :=
  fun w =>
    match fs w p with
    | Some c => (Ok c, w)
    | None => (Raise (FileNotFoundError p), w)
    end.

(** [with open(p, 'w') as f: f.write(c)] *)
Definition write_file (p c : str) : M unit :=
  fun w =>
    (Ok tt,
     mkWorld (fun q => if str_eq_dec q p then Some c else fs w q)
             (entropy w) (drawn w) (stdout w)).

(** [print(s)] *)
Definition print (s : str) : M unit :=
  fun w => (Ok tt, mkWorld (fs w) (entropy w) (drawn w) (stdout w ++ [s])).

(** [uuid.uuid4()] *)
Definition uuid_uuid4 : M Z :=
  fun w =>
    (Ok (Uuid.uuid4 (entropy w (drawn w))),
     mkWorld (fs w) (entropy w) (S (drawn w)) (stdout w)).

(** A [for] loop threading the variables the body assigns. *)
Fixpoint for_each {A S} (xs : list A) (body : A -> S -> M S) (s : S) : M S :=
  match xs with
  | [] => ret s
  | x :: rest => s' <- body x s ;; for_each rest body s'
  end.

(* ===================================================================== *)
(** * The identity generator *)
(* ===================================================================== *)

(** [generate_xcode_uuid], the same function in
    [add_new_components_to_xcode.py] and in [add_files_to_xcode.py]:

      return ''.join(str(uuid.uuid4()).upper().replace('-', '')[:24])    *)
Definition generate_xcode_uuid : M str :=
  u <- uuid_uuid4 ;;
  ret (join [] (chars (slice (replace (upper (Uuid.to_str u)) (lit "-") [])
                             None (Some 24)))).

(** The characters an identity may consist of. *)
Definition is_upper_hex (c : ascii) : bool :=
  existsb (Ascii.eqb c) (lit "0123456789ABCDEF").

(* ===================================================================== *)
(** * add_new_components_to_xcode.py: the manifest patcher *)
(* ===================================================================== *)

Definition project_file : str := lit "FitnessCoach.xcodeproj/project.pbxproj".

(** The list the script registers: pairs of a path and a group name. *)
Definition files_to_add : list (str * str) :=
  [ (lit "FitnessCoach/Shared/Components/Core/ThemedComponents.swift", lit "Components");
    (lit "FitnessCoach/Shared/Components/Charts/ChartComponents.swift", lit "Components");
    (lit "FitnessCoach/Shared/Components/Input/SearchBar.swift", lit "Components");
    (lit "FitnessCoach/Shared/Components/Workout/WorkoutComponents.swift", lit "Components");
    (lit "Features/Dashboard/DashboardModels.swift", lit "Dashboard");
    (lit "Features/Workouts/WorkoutModels.swift", lit "Workouts");
    (lit "Features/Nutrition/NutritionModels.swift", lit "Nutrition");
    (lit "Features/Nutrition/NutritionViewModel.swift", lit "Nutrition") ].

(** ** The four rendered fragments (the f-strings of the loop body) *)

Definition file_ref_line (file_uuid filename : str) : str :=
  [TAB; TAB] ++ file_uuid ++ lit " /* " ++ filename ++
  lit " */ = {isa = PBXFileReference; lastKnownFileType = sourcecode.swift; path = " ++
  filename ++ lit "; sourceTree = " ++ [DQUOTE] ++ lit "<group>" ++ [DQUOTE] ++ lit "; };".

Definition build_file_line (build_uuid file_uuid filename : str) : str :=
  [TAB; TAB] ++ build_uuid ++ lit " /* " ++ filename ++
  lit " in Sources */ = {isa = PBXBuildFile; fileRef = " ++ file_uuid ++
  lit " /* " ++ filename ++ lit " */; };".

Definition group_child_line (file_uuid filename : str) : str :=
  [TAB; TAB; TAB; TAB] ++ file_uuid ++ lit " /* " ++ filename ++ lit " */,".

Definition sources_line (build_uuid filename : str) : str :=
  [TAB; TAB; TAB; TAB] ++ build_uuid ++ lit " /* " ++ filename ++ lit " in Sources */,".

(** ** The dict [group_children]

    Keys in insertion order, as a Python dict iterates them. *)
Definition dict := list (str * list str).

Fixpoint dict_get (d : dict) (k : str) : option (list str) :=
  match d with
  | [] => None
  | (k', v) :: rest => if str_eq_dec k' k then Some v else dict_get rest k
  end.

Fixpoint dict_set (d : dict) (k : str) (v : list str) : dict :=
  match d with
  | [] => [(k, v)]
  | (k', v') :: rest =>
      if str_eq_dec k' k then (k', v) :: rest else (k', v') :: dict_set rest k v
  end.

(** The variables the registration loop assigns. *)
Record staging := mkStaging {
  file_refs_section : list str;
  build_files_section : list str;
  group_children : dict;
  sources_build_phase : list str
}.

Definition empty_staging : staging := mkStaging [] [] [] [].

(** [if group_name not in group_children: group_children[group_name] = []]
    followed by [group_children[group_name].append(line)] *)
Definition append_child (gc : dict) (group_name line : str) : dict :=
  let gc :=
    match dict_get gc group_name with
    | None => dict_set gc group_name []
    | Some _ => gc
    end in
  match dict_get gc group_name with
  | Some l => dict_set gc group_name (l ++ [line])
  | None => gc
  end.

(** ** The loop body (source lines 42-72) *)
Definition register_entry (content : str) (entry : str * str) (st : staging)
  : M staging :=
  let '(file_path, group_name) := entry in
  present <- os_path_exists file_path ;;
  if negb present then
    print (lit "Warning: " ++ file_path ++ lit " does not exist") ;;
    ret st                                                         (* continue *)
  else
    let filename := basename file_path in
    file_uuid <- generate_xcode_uuid ;;
    build_uuid <- generate_xcode_uuid ;;
    if isin filename content then
      print (lit "Skipping " ++ filename ++ lit " - already in project") ;;
      ret st                                                       (* continue *)
    else
      let file_ref := file_ref_line file_uuid filename in
      let build_file := build_file_line build_uuid file_uuid filename in
      print (lit "Adding: " ++ filename ++ lit " to " ++ group_name ++ lit " group") ;;
      ret (mkStaging (file_refs_section st ++ [file_ref])
                     (build_files_section st ++ [build_file])
                     (append_child (group_children st) group_name
                                   (group_child_line file_uuid filename))
                     (sources_build_phase st ++
                        [sources_line build_uuid filename])).

(** ** The three splices (source lines 78-98) *)

Definition file_ref_marker : str := lit "/* End PBXFileReference section */".
Definition build_file_marker : str := lit "/* End PBXBuildFile section */".
Definition sources_marker : str := lit "/* Sources */,".

(** [content[:pos] + '\n'.join(section) + '\n' + content[pos:]] *)
Definition splice (content : str) (pos : Z) (section : list str) : str :=
  slice content None (Some pos) ++ join [NL] section ++ [NL] ++
  slice content (Some pos) None.

Definition insert_file_refs (content : str) (section : list str) : str :=
  if isin file_ref_marker content then
    let insert_pos := find content file_ref_marker in
    splice content insert_pos section
  else content.

Definition insert_build_files (content : str) (section : list str) : str :=
  if isin build_file_marker content then
    let insert_pos := find content build_file_marker in
    splice content insert_pos section
  else content.

Definition insert_sources (content : str) (section : list str) : str :=
  if isin sources_marker content then
    let sources_pos := find content sources_marker in
    let files_pos := find_from content (lit "files = (") sources_pos in
    if negb (files_pos =? -1) then
      let end_bracket_pos := find_from content (lit ");") files_pos in
      splice content end_bracket_pos section
    else content
  else content.

Definition apply_insertions (content : str) (st : staging) : str :=
  let content := insert_file_refs content (file_refs_section st) in
  let content := insert_build_files content (build_files_section st) in
  insert_sources content (sources_build_phase st).

(** The closing loop that prints the hints for manual grouping. *)
Definition print_group_hints (gc : dict) : M unit :=
  for_each gc
    (fun '(group, files) _ =>
       print ([NL] ++ lit "Files for " ++ group ++ lit " group:") ;;
       for_each files (fun file_entry _ => print (lit "  " ++ file_entry)) tt)
    tt.

(** ** The script, for an arbitrary list in place of [files_to_add] *)
Definition add_files (files : list (str * str)) : M unit :=
  content <- read_file project_file ;;
  st <- for_each files (register_entry content) empty_staging ;;
  match file_refs_section st with
  | [] => print (lit "No new files to add")                        (* return *)
  | _ :: _ =>
      write_file project_file (apply_insertions content st) ;;
      print ([NL] ++ lit "Successfully added " ++
             str_of_nat (length (file_refs_section st)) ++
             lit " files to Xcode project") ;;
      print ([NL] ++ lit "Note: You may need to manually organize files into groups in Xcode") ;;
      print_group_hints (group_children st)
  end.

Definition add_files_to_xcode_project : M unit := add_files files_to_add.

(* ===================================================================== *)
(** * add_quick_components.py *)
(* ===================================================================== *)

Module Quick.

Definition file_uuid : str := lit "A1B2C3D4E5F67890ABCDEF12".
Definition build_uuid : str := lit "F1E2D3C4B5A69780FEDCBA21".
Definition filename : str := lit "QuickComponents.swift".

(** The text the script writes when the file is not yet in the project. *)
Definition patch (content : str) : str :=
  let file_ref := file_ref_line file_uuid filename in
  let marker := file_ref_marker in
  let content := replace content marker (file_ref ++ [NL] ++ marker) in
  let build_file := build_file_line build_uuid file_uuid filename in
  let marker := build_file_marker in
  let content := replace content marker (build_file ++ [NL] ++ marker) in
  let source_line := sources_line build_uuid filename in
  let marker := sources_marker in
  let sources_pos := find content marker in
  if negb (sources_pos =? -1) then
    let files_pos := find_from content (lit "files = (") sources_pos in
    if negb (files_pos =? -1) then
      let end_pos := find_from content (lit ");") files_pos in
      slice content None (Some end_pos) ++ source_line ++ [NL] ++
      slice content (Some end_pos) None
    else content
  else content.

Definition main : M unit :=
  content <- read_file project_file ;;
  if isin filename content then
    print (lit "QuickComponents.swift already in project")         (* exit(0) *)
  else
    write_file project_file (patch content) ;;
    print (lit "Added QuickComponents.swift to project").

End Quick.

(* ===================================================================== *)
(** * add_files_to_xcode.py *)
(* ===================================================================== *)

Module CoreData.

(** ** More of Python's strings

    [split], [strip] and [sorted] are applied to record lines and paths.
    White space is that of ASCII: the characters 9 to 13 and 28 to 32.
    The script strips one text only, a display name followed by
    [" in Sources "], so the model departs from Python only for a display
    name that starts with a white space character outside ASCII. *)

Definition is_space (c : ascii) : bool :=
  let n := nat_of_ascii c in
  (((9 <=? n) && (n <=? 13)) || ((28 <=? n) && (n <=? 32)))%nat.

(** The scan behind [s.split()]: [word] is the word being read. *)
Fixpoint split_ws (s word : str) : list str :=
  match s with
  | [] => match word with [] => [] | _ :: _ => [word] end
  | c :: s' =>
      if is_space c then
        match word with
        | [] => split_ws s' []
        | _ :: _ => word :: split_ws s' []
        end
      else split_ws s' (word ++ [c])
  end.

(** [s.split()] *)
Definition split (s : str) : list str := split_ws s [].

(** The scan behind [s.split(sep)] for a non-empty [sep]: [piece] is the
    piece being read; [fuel] bounds the number of steps. *)
Fixpoint split_scan (fuel : nat) (sep s piece : str) : list str :=
  match fuel with
  | O => [piece ++ s]
  | S f =>
      if prefixb sep s then piece :: split_scan f sep (skipn (length sep) s) []
      else match s with
           | [] => [piece]
           | c :: s' => split_scan f sep s' (piece ++ [c])
           end
  end.

(** [s.lstrip()], [s.rstrip()], [s.strip()] *)
Fixpoint lstrip (s : str) : str :=
  match s with
  | [] => []
  | c :: s' => if is_space c then lstrip s' else s
  end.

Definition rstrip (s : str) : str := rev (lstrip (rev s)).

Definition strip (s : str) : str := rstrip (lstrip s).

(** [a <= b] on strings: the order of the first character that differs,
    a prefix coming first. *)
Fixpoint str_leb (a b : str) : bool :=
  match a, b with
  | [], _ => true
  | _ :: _, [] => false
  | x :: a', y :: b' =>
      if (nat_of_ascii x <? nat_of_ascii y)%nat then true
      else if (nat_of_ascii y <? nat_of_ascii x)%nat then false
      else str_leb a' b'
  end.

Fixpoint insert_sorted (x : str) (l : list str) : list str :=
  match l with
  | [] => [x]
  | y :: l' => if str_leb x y then x :: l else y :: insert_sorted x l'
  end.

(** [sorted(l)] for a list of strings.  The order is total and two
    strings that compare equal are the same string, so every sorting
    method gives the same list. *)
Definition sorted (l : list str) : list str := fold_right insert_sorted [] l.

(** ** Failure *)

Inductive error :=
| IndexError
| ValueError
| Uncaught (e : exn).

(** Computations of this script: those of [M], with the two further ways
    to fail. *)
Definition N (A : Type) : Type := world -> (A + error) * world.

Definition retN {A} (a : A) : N A := fun w => (inl a, w).

Definition bindN {A B} (c : N A) (k : A -> N B) : N B :=
  fun w =>
    match c w with
    | (inl a, w') => k a w'
    | (inr e, w') => (inr e, w')
    end.

(** A computation of the other scripts, run here. *)
Definition lift {A} (c : M A) : N A :=
  fun w =>
    match c w with
    | (Ok a, w') => (inl a, w')
    | (Raise e, w') => (inr (Uncaught e), w')
    end.

(** A value, or the exception its computation raised. *)
Definition try_ {A} (r : A + error) : N A := fun w => (r, w).

Declare Scope cd_scope.
Notation "x <- c ;; k" := (bindN c (fun x => k))
  (at level 61, c at next level, right associativity) : cd_scope.
Notation "c ;; k" := (bindN c (fun _ => k))
  (at level 61, right associativity) : cd_scope.
Local Open Scope cd_scope.

Fixpoint for_eachN {A S} (xs : list A) (body : A -> S -> N S) (s : S) : N S :=
  match xs with
  | [] => retN s
  | x :: rest => s' <- body x s ;; for_eachN rest body s'
  end.

(** [l[i]] *)
Definition index {A} (l : list A) (i : nat) : A + error :=
  match nth_error l i with
  | Some x => inl x
  | None => inr IndexError
  end.

(** [s.split(sep)] *)
Definition split_on (s sep : str) : list str + error :=
  match sep with
  | [] => inr ValueError
  | _ :: _ => inl (split_scan (length s) sep s [])
  end.

(** ** The fragments *)

(** The file record of this script; unlike the patcher's it quotes the
    path. *)
Definition file_ref_line (file_uuid filename : str) : str :=
  [TAB; TAB] ++ file_uuid ++ lit " /* " ++ filename ++
  lit " */ = {isa = PBXFileReference; lastKnownFileType = sourcecode.swift; path = " ++
  [DQUOTE] ++ filename ++ [DQUOTE] ++ lit "; sourceTree = " ++
  [DQUOTE] ++ lit "<group>" ++ [DQUOTE] ++ lit "; };".

(** The list entry printed for a group and for the build phase:
    [f'\t\t\t\t{uuid} /* {filename} */,']. *)
Definition list_entry (uuid filename : str) : str :=
  [TAB; TAB; TAB; TAB] ++ uuid ++ lit " /* " ++ filename ++ lit " */,".

(** [[ref for ref in file_refs if filename in ref][0].split()[0]] *)
Definition group_entry_uuid (file_refs : list str) (filename : str)
  : str + error :=
  match index (filter (isin filename) file_refs) 0 with
  | inl ref => index (split ref) 0
  | inr e => inr e
  end.

(** [build.split()[0]] and
    [build.split('/*')[1].split('*/')[0].strip()] *)
Definition build_phase_fields (build : str) : (str * str) + error :=
  match index (split build) 0 with
  | inl build_uuid =>
      match split_on build (lit "/*") with
      | inl parts =>
          match index parts 1 with
          | inl part =>
              match split_on part (lit "*/") with
              | inl parts' =>
                  match index parts' 0 with
                  | inl name => inl (build_uuid, strip name)
                  | inr e => inr e
                  end
              | inr e => inr e
              end
          | inr e => inr e
          end
      | inr e => inr e
      end
  | inr e => inr e
  end.

(** ** The script

    [model_files] is what [find_core_data_files] returns: the paths that
    [glob.glob] finds, in the order it yields them. *)
Definition main (model_files : list str) : N unit :=
  lift (print (lit "Found " ++ str_of_nat (length model_files) ++
               lit " Core Data model files:")) ;;
  lists <- for_eachN (sorted model_files)
    (fun file_path '(file_refs, build_files) =>
       let filename := basename file_path in
       file_uuid <- lift generate_xcode_uuid ;;
       build_uuid <- lift generate_xcode_uuid ;;
       let file_ref := file_ref_line file_uuid filename in
       let build_file := build_file_line build_uuid file_uuid filename in
       lift (print (lit "  " ++ filename ++ lit " -> " ++ file_uuid)) ;;
       retN (file_refs ++ [file_ref], build_files ++ [build_file]))
    ([], []) ;;
  let '(file_refs, build_files) := lists in
  lift (print ([NL] ++ lit "=== FILE REFERENCES TO ADD ===")) ;;
  for_eachN file_refs (fun ref _ => lift (print ref)) tt ;;
  lift (print ([NL] ++ lit "=== BUILD FILES TO ADD ===")) ;;
  for_eachN build_files (fun build _ => lift (print build)) tt ;;
  lift (print ([NL] ++ lit "=== GROUP ENTRIES TO ADD ===")) ;;
  lift (print (lit "Add these to the Database group:")) ;;
  for_eachN (sorted model_files)
    (fun file_path _ =>
       let filename := basename file_path in
       file_uuid <- try_ (group_entry_uuid file_refs filename) ;;
       lift (print (list_entry file_uuid filename)))
    tt ;;
  lift (print ([NL] ++ lit "=== BUILD PHASE ENTRIES TO ADD ===")) ;;
  lift (print (lit "Add these to PBXSourcesBuildPhase:")) ;;
  for_eachN build_files
    (fun build _ =>
       fields <- try_ (build_phase_fields build) ;;
       let '(build_uuid, filename) := fields in
       lift (print (list_entry build_uuid filename)))
    tt.

End CoreData.

(* ===================================================================== *)
(** * Notions used to state the properties *)
(* ===================================================================== *)

(** ** Texts *)

(** [sub] occurs in [s] as a contiguous block. *)
Definition occurs (sub s : str) : Prop := exists u v, s = u ++ sub ++ v.

(** The text a splice inserts: the staged lines, one per line. *)
Definition block (section : list str) : str := join [NL] section ++ [NL].

(** Whether the build phase splice applies: the phase's opening token is
    there, and a list opens after it. *)
Definition sources_anchor (content : str) : bool :=
  isin sources_marker content &&
  negb (find_from content (lit "files = (") (find content sources_marker) =? -1).

(** [inserted T T']: the text [T'] is [T] with blocks of text put in; no
    character of [T] is removed, changed or reordered. *)
Inductive inserted : str -> str -> Prop :=
| inserted_refl T : inserted T T
| inserted_step a x b T' : inserted (a ++ x ++ b) T' -> inserted (a ++ b) T'.

(** The last character, if any. *)
Definition ends_with (c : ascii) (s : str) : Prop := exists s0, s = s0 ++ [c].

(** The names for which a second run is known to change nothing: those
    that hold neither a closing parenthesis nor the last character of the
    manifest text, the two characters before which the build phase splice
    may cut. *)
Definition safe_name (T n : str) : bool :=
  negb (existsb (Ascii.eqb ")"%char) n) &&
  negb (existsb (Ascii.eqb (last T ")"%char)) n).

(** ** Identities *)

(** The value of an uppercase hexadecimal digit; [16] for other characters. *)
Definition unhex (c : ascii) : Z :=
  match find (lit "0123456789ABCDEF") [c] with
  | -1 => 16
  | d => d
  end.

(** The 24 characters [generate_xcode_uuid] keeps of a UUID [u]: its 24
    leading hexadecimal digits, in upper case. *)
Definition leading24 (u : Z) : str :=
  map (fun i => upper_char (Uuid.hex_digit (Uuid.nibble u (31 - i)))) (seq 0 24).

(** The identity minted from the [k]-th draw of an entropy source. *)
Definition identity (rnd : nat -> Z) (k : nat) : str :=
  leading24 (Uuid.uuid4 (rnd k)).

(** The part of a draw that an identity shows: the UUID without its 32
    low bits, which the cut to 24 characters drops. *)
Definition retained (r : Z) : Z := Z.shiftr (Uuid.uuid4 r) 32.

(** The world after one more draw. *)
Definition tick (w : world) : world :=
  mkWorld (fs w) (entropy w) (S (drawn w)) (stdout w).

(** ** The registration loop *)

(** One entry the loop registers: its display name, its group and the two
    identities minted for it. *)
Record registration := mkReg {
  reg_name : str;
  reg_group : str;
  reg_file_uuid : str;
  reg_build_uuid : str
}.

Definition on_disk (disk : str -> option str) (p : str) : bool :=
  match disk p with Some _ => true | None => false end.

(** The entries of [files] that the loop registers against the manifest
    text [content], in order.  An entry whose path is not on disk is passed
    over; every other entry consumes two draws, first the file identity and
    then the build identity, and is registered unless its display name
    occurs in [content].  [k] counts the draws consumed so far. *)
Fixpoint registrations (disk : str -> option str) (rnd : nat -> Z)
    (content : str) (k : nat) (files : list (str * str)) : list registration :=
  match files with
  | [] => []
  | (file_path, group_name) :: rest =>
      if on_disk disk file_path then
        if isin (basename file_path) content then
          registrations disk rnd content (2 + k) rest
        else
          mkReg (basename file_path) group_name
                (identity rnd k) (identity rnd (1 + k))
          :: registrations disk rnd content (2 + k) rest
      else registrations disk rnd content k rest
  end.

(** The effect of one registration on the loop variables. *)
Definition stage (st : staging) (r : registration) : staging :=
  mkStaging
    (file_refs_section st ++ [file_ref_line (reg_file_uuid r) (reg_name r)])
    (build_files_section st ++
       [build_file_line (reg_build_uuid r) (reg_file_uuid r) (reg_name r)])
    (append_child (group_children st) (reg_group r)
                  (group_child_line (reg_file_uuid r) (reg_name r)))
    (sources_build_phase st ++ [sources_line (reg_build_uuid r) (reg_name r)]).

(** The number of draws one pass over [files] consumes. *)
Definition draws (disk : str -> option str) (files : list (str * str)) : nat :=
  2 * length (filter (fun e => on_disk disk (fst e)) files).

(** The identities the generator returns during one pass over [files], in
    the order of the calls: one per draw, two draws per entry on disk. *)
Definition minted (w : world) (files : list (str * str)) : list str :=
  map (identity (entropy w)) (seq (drawn w) (draws (fs w) files)).

(** The identities that reach the staged fragments. *)
Definition staged_identities (regs : list registration) : list str :=
  flat_map (fun r => [reg_file_uuid r; reg_build_uuid r]) regs.

(** [line] is listed under the key [group]. *)
Definition listed (gc : dict) (group line : str) : Prop :=
  exists l, dict_get gc group = Some l /\ In line l.

(** A registration with its group forgotten. *)
Definition ungrouped (r : registration) : registration :=
  mkReg (reg_name r) [] (reg_file_uuid r) (reg_build_uuid r).

(** ** Worlds *)

(** The world after some more lines were printed and draws consumed. *)
Definition advance (w : world) (n : nat) (out : list str) : world :=
  mkWorld (fs w) (entropy w) (n + drawn w) (stdout w ++ out).

(** Computations that only print. *)
Definition only_prints {A} (c : M A) : Prop :=
  forall w, exists a out, c w = (Ok a, advance w 0 out).

(** The manifest text on disk. *)
Definition manifest (w : world) : option str := fs w project_file.

(** The disk after a file was written. *)
Definition put (disk : str -> option str) (p c : str) : str -> option str :=
  fun q => if str_eq_dec q p then Some c else disk q.

(** The manifest text a script leaves behind. *)
Definition text_after (c : M unit) (w : world) : str :=
  match manifest (snd (c w)) with
  | Some T => T
  | None => []
  end.

(* ===================================================================== *)
(** * Example worlds *)
(* ===================================================================== *)

(** A disk holding the manifest [T] and an empty file at each of [paths]. *)
Definition example_disk (T : str) (paths : list str) : str -> option str :=
  fun p =>
    if str_eq_dec p project_file then Some T
    else if existsb (fun q => if str_eq_dec p q then true else false) paths
         then Some []
         else None.

Definition example_world (T : str) (paths : list str) (rnd : nat -> Z) : world :=
  mkWorld (example_disk T paths) rnd 0 [].

(** A small manifest with the two record sections, one group and the build
    phase. *)
Definition example_manifest : str :=
  join [NL]
    [ lit "/* Begin PBXBuildFile section */";
      lit "/* End PBXBuildFile section */";
      lit "/* Begin PBXFileReference section */";
      lit "/* End PBXFileReference section */";
      lit "G1 /* Components */ = { children = (";
      lit "); };";
      lit "buildPhases = ( S1 /* Sources */, );";
      lit "S1 /* Sources */ = { files = (";
      lit "); };";
      [] ].

(** The same manifest after [X.swift] was registered by hand. *)
Definition registered_manifest : str :=
  example_manifest ++ lit "/* X.swift */" ++ [NL].

(** An entropy source whose draws are all different, but only in their low
    bits. *)
Definition counting_entropy : nat -> Z := fun k => Z.of_nat k.

(** An entropy source whose draws differ in their high bits. *)
Definition spread_entropy : nat -> Z := fun k => Z.of_nat k * 2 ^ 100.

(** A disk with the manifest that already mentions [X.swift], and that
    file. *)
Definition overlap_world : world :=
  example_world registered_manifest [lit "Views/X.swift"] spread_entropy.

(** A disk with the example manifest and two files of the same name. *)
Definition fresh_world : world :=
  example_world example_manifest
                [lit "Views/X.swift"; lit "Models/X.swift"] spread_entropy.

(** A manifest without the file record section. *)
Definition headless_manifest : str :=
  join [NL]
    [ lit "/* Begin PBXBuildFile section */";
      lit "/* End PBXBuildFile section */";
      lit "buildPhases = ( S1 /* Sources */, );";
      lit "S1 /* Sources */ = { files = (";
      lit "); };";
      [] ].

Definition headless_world : world :=
  example_world headless_manifest [lit "Views/X.swift"] spread_entropy.

(** A disk with the example manifest and one new file. *)
Definition single_world : world :=
  example_world example_manifest [lit "Views/X.swift"] spread_entropy.

(** A disk with the example manifest and one new file, and an entropy
    source whose draws differ in their low bits only. *)
Definition counting_world : world :=
  example_world example_manifest [lit "Views/X.swift"] counting_entropy.

(** A manifest whose build phase list names a file [Notes(1)], followed by
    a semicolon. *)
Definition notes_manifest : str :=
  join [NL]
    [ lit "/* Begin PBXFileReference section */";
      lit "/* End PBXFileReference section */";
      lit "buildPhases = ( S1 /* Sources */, );";
      lit "S1 /* Sources */ = { files = ( Notes(1); );";
      [] ].

Definition notes_world : world :=
  example_world notes_manifest [lit "Docs/Notes(1)"; lit "Views/X.swift"]
                spread_entropy.

Definition notes_files : list (str * str) :=
  [ (lit "Docs/Notes(1)", lit "Docs"); (lit "Views/X.swift", lit "Components") ].

(** A manifest cut off inside the build phase list, right after the name
    of a file it lists. *)
Definition unclosed_manifest : str :=
  join [NL]
    [ lit "buildPhases = ( S1 /* Sources */, );";
      lit "S1 /* Sources */ = { files = (";
      lit "F1 /* Y.swift" ].

Definition unclosed_world : world :=
  example_world unclosed_manifest [lit "Views/Y.swift"; lit "Views/X.swift"]
                spread_entropy.

Definition unclosed_files : list (str * str) :=
  [ (lit "Views/Y.swift", lit "Components");
    (lit "Views/X.swift", lit "Components") ].

(* ===================================================================== *)
(** * Notions used to state the further properties *)
(* ===================================================================== *)

(** [s] is [a ++ sub ++ rest], and [sub] starts nowhere in [s] before the
    end of [a]. *)
Definition first_occurrence (sub s a rest : str) : Prop :=
  s = a ++ sub ++ rest /\
  forall u v, s = u ++ sub ++ v -> (length a <= length u)%nat.

(** The number of places of [s] at which [sub] starts. *)
Fixpoint count_starts (sub s : str) : nat :=
  (if prefixb sub s then 1 else 0) +
  match s with
  | [] => 0
  | _ :: s' => count_starts sub s'
  end.

(** The line the registration loop prints for one entry. *)
Definition report_line (disk : str -> option str) (content : str)
    (entry : str * str) : str :=
  let '(file_path, group_name) := entry in
  if on_disk disk file_path then
    if isin (basename file_path) content then
      lit "Skipping " ++ basename file_path ++ lit " - already in project"
    else
      lit "Adding: " ++ basename file_path ++ lit " to " ++ group_name ++
      lit " group"
  else lit "Warning: " ++ file_path ++ lit " does not exist".

(** The lines the script prints for one group of [group_children]. *)
Definition hint_lines (entry : str * list str) : list str :=
  ([NL] ++ lit "Files for " ++ fst entry ++ lit " group:")
  :: map (fun file_entry => lit "  " ++ file_entry) (snd entry).

(** What the script prints after the loop. *)
Definition closing_report (st : staging) : list str :=
  match file_refs_section st with
  | [] => [lit "No new files to add"]
  | _ :: _ =>
      [ [NL] ++ lit "Successfully added " ++
        str_of_nat (length (file_refs_section st)) ++
        lit " files to Xcode project";
        [NL] ++ lit "Note: You may need to manually organize files into groups in Xcode" ]
      ++ flat_map hint_lines (group_children st)
  end.

(** The group lines of the registrations made for [group], in order. *)
Definition children_of (group : str) (regs : list registration) : list str :=
  map (fun r => group_child_line (reg_file_uuid r) (reg_name r))
      (filter (fun r => if str_eq_dec (reg_group r) group then true else false)
              regs).

(** The one registration add_quick_components.py makes. *)
Definition quick_registration : registration :=
  mkReg Quick.filename [] Quick.file_uuid Quick.build_uuid.

(** ** add_files_to_xcode.py *)

(** One file the script handles: its display name and the two identities
    minted for it. *)
Record model_record := mkModel {
  model_name : str;
  model_file_uuid : str;
  model_build_uuid : str
}.

(** The records of the first loop over [paths], minting from the [k]-th
    draw of [rnd] on. *)
Fixpoint model_records (rnd : nat -> Z) (k : nat) (paths : list str)
  : list model_record :=
  match paths with
  | [] => []
  | p :: rest =>
      mkModel (basename p) (identity rnd k) (identity rnd (S k))
      :: model_records rnd (S (S k)) rest
  end.

Definition model_file_ref (r : model_record) : str :=
  CoreData.file_ref_line (model_file_uuid r) (model_name r).

Definition model_build_file (r : model_record) : str :=
  build_file_line (model_build_uuid r) (model_file_uuid r) (model_name r).

(** The file identity of the first record whose line shows [name]. *)
Definition shown_identity (recs : list model_record) (name : str) : str :=
  match List.find (fun r => isin name (model_file_ref r)) recs with
  | Some r => model_file_uuid r
  | None => []
  end.

(** The lines the script prints for [n] paths found and the records
    [recs] made of them. *)
Definition core_data_output (n : nat) (recs : list model_record) : list str :=
  [lit "Found " ++ str_of_nat n ++ lit " Core Data model files:"] ++
  map (fun r => lit "  " ++ model_name r ++ lit " -> " ++ model_file_uuid r)
      recs ++
  [[NL] ++ lit "=== FILE REFERENCES TO ADD ==="] ++
  map model_file_ref recs ++
  [[NL] ++ lit "=== BUILD FILES TO ADD ==="] ++
  map model_build_file recs ++
  [[NL] ++ lit "=== GROUP ENTRIES TO ADD ===";
   lit "Add these to the Database group:"] ++
  map (fun r => CoreData.list_entry (shown_identity recs (model_name r))
                                    (model_name r)) recs ++
  [[NL] ++ lit "=== BUILD PHASE ENTRIES TO ADD ===";
   lit "Add these to PBXSourcesBuildPhase:"] ++
  map (fun r => CoreData.list_entry
                  (model_build_uuid r)
                  (CoreData.strip (model_name r ++ lit " in Sources")))
      recs.

(** A string of uppercase hexadecimal digits, at least one. *)
Definition hex_token (u : str) : Prop :=
  u <> [] /\ forallb is_upper_hex u = true.

(* ===================================================================== *)
(** * Facts about the string operations *)
(* ===================================================================== *)

Lemma prefixb_app p r : prefixb p (p ++ r) = true.
Proof.
  induction p as [|a p IH]; simpl; [reflexivity|].
  now rewrite Ascii.eqb_refl, IH.
Qed.

Lemma prefixb_split p s : prefixb p s = true -> exists r, s = p ++ r.
Proof.
  revert s; induction p as [|a p IH]; intros s H.
  - now exists s.
  - destruct s as [|b s]; simpl in H; [discriminate|].
    apply andb_true_iff in H as [Hab Hp].
    apply Ascii.eqb_eq in Hab; subst b.
    destruct (IH _ Hp) as [r ->]. now exists r.
Qed.

Lemma isin_prefix sub s : prefixb sub s = true -> isin sub s = true.
Proof. intros H. destruct s; simpl; now rewrite H. Qed.

Lemma isin_occurs sub s : isin sub s = true <-> occurs sub s.
Proof.
  split.
  - induction s as [|a s IH]; simpl; intros H.
    + rewrite orb_false_r in H. destruct (prefixb_split _ _ H) as [r ->].
      now exists [], r.
    + apply orb_true_iff in H as [H|H].
      * destruct (prefixb_split _ _ H) as [r ->]. now exists [], r.
      * destruct (IH H) as (u & v & ->). now exists (a :: u), v.
  - intros (u & v & ->). induction u as [|a u IH]; simpl.
    + apply isin_prefix, prefixb_app.
    + now rewrite IH, orb_true_r.
Qed.

Lemma occurs_isin sub s : occurs sub s -> isin sub s = true.
Proof. apply isin_occurs. Qed.

Lemma occurs_app_l sub a b : occurs sub a -> occurs sub (a ++ b).
Proof.
  intros (u & v & ->). exists u, (v ++ b). now rewrite <- !app_assoc.
Qed.

Lemma occurs_app_r sub a b : occurs sub b -> occurs sub (a ++ b).
Proof.
  intros (u & v & ->). exists (a ++ u), v. now rewrite <- !app_assoc.
Qed.

Lemma occurs_refl s : occurs s s.
Proof. exists [], []. now rewrite app_nil_r. Qed.

Lemma occurs_trans a b c : occurs a b -> occurs b c -> occurs a c.
Proof.
  intros (u & v & ->) (u' & v' & ->).
  exists (u' ++ u), (v ++ v'). now rewrite <- !app_assoc.
Qed.

(** What [find] returns: [-1] exactly when there is no occurrence, and
    otherwise the length of the text before one. *)
Lemma find_aux_none sub s i : isin sub s = false -> find_aux sub s i = -1.
Proof.
  revert i; induction s as [|a s IH]; simpl; intros i H;
    apply orb_false_iff in H as [-> H]; [reflexivity|auto].
Qed.

Lemma find_aux_found sub s i :
  isin sub s = true ->
  exists u v, s = u ++ v /\ prefixb sub v = true /\ find_aux sub s i = i + len u.
Proof.
  revert i; induction s as [|a s IH]; simpl; intros i H.
  - rewrite orb_false_r in H. rewrite H.
    exists [], []. repeat split; [assumption | unfold len; simpl; lia].
  - destruct (prefixb sub (a :: s)) eqn:Hp.
    + exists [], (a :: s). repeat split; [assumption | unfold len; simpl; lia].
    + simpl in H. destruct (IH (i + 1) H) as (u & v & -> & Hv & Hf).
      exists (a :: u), v. repeat split; [assumption|].
      rewrite Hf. unfold len. simpl length. lia.
Qed.

Lemma find_aux_cases sub s i :
  find_aux sub s i = -1 \/
  exists u v, s = u ++ v /\ prefixb sub v = true /\ find_aux sub s i = i + len u.
Proof.
  destruct (isin sub s) eqn:H.
  - right. now apply find_aux_found.
  - left. now apply find_aux_none.
Qed.

Lemma len_nonneg s : 0 <= len s.
Proof. unfold len; lia. Qed.

Lemma len_app a b : len (a ++ b) = len a + len b.
Proof. unfold len. rewrite length_app. lia. Qed.

(** A slice bound that is the length of a prefix cuts exactly there. *)
Lemma clip_len_prefix a b : clip (len (a ++ b)) (len a) = length a.
Proof.
  unfold clip. rewrite len_app.
  pose proof (len_nonneg a); pose proof (len_nonneg b).
  destruct (Z.ltb_spec (len a) 0); [lia|].
  rewrite Z.min_l by lia. unfold len. apply Nat2Z.id.
Qed.

Lemma slice_upto s p : slice s None (Some p) = firstn (clip (len s) p) s.
Proof. unfold slice. simpl. now rewrite Nat.sub_0_r. Qed.

Lemma slice_from s p : slice s (Some p) None = skipn (clip (len s) p) s.
Proof.
  unfold slice. apply firstn_all2. rewrite length_skipn. lia.
Qed.

(** Cutting a string at any bound and gluing the halves gives it back. *)
Lemma slice_glue s p : slice s None (Some p) ++ slice s (Some p) None = s.
Proof. rewrite slice_upto, slice_from. apply firstn_skipn. Qed.

Lemma slice_upto_app a b : slice (a ++ b) None (Some (len a)) = a.
Proof.
  rewrite slice_upto, clip_len_prefix.
  rewrite firstn_app, Nat.sub_diag, firstn_all. simpl. apply app_nil_r.
Qed.

Lemma slice_from_app a b : slice (a ++ b) (Some (len a)) None = b.
Proof.
  rewrite slice_from, clip_len_prefix.
  rewrite skipn_app, Nat.sub_diag, skipn_all. reflexivity.
Qed.

Lemma find_cases s sub :
  (isin sub s = false /\ find s sub = -1) \/
  (isin sub s = true /\
   exists a b, s = a ++ b /\ prefixb sub b = true /\ find s sub = len a).
Proof.
  unfold find. destruct (isin sub s) eqn:H.
  - right. split; [reflexivity|].
    destruct (find_aux_found sub s 0 H) as (u & v & E & Hv & Hf).
    exists u, v. repeat split; [assumption.. | lia].
  - left. split; [reflexivity | now apply find_aux_none].
Qed.

Lemma find_from_cases s sub a b :
  s = a ++ b ->
  find_from s sub (len a) = -1 \/
  exists u v, b = u ++ v /\ prefixb sub v = true /\
              find_from s sub (len a) = len (a ++ u).
Proof.
  intros ->. unfold find_from.
  pose proof (len_nonneg a); pose proof (len_nonneg b).
  destruct (Z.ltb_spec (len a) 0); [lia|].
  rewrite len_app. destruct (Z.ltb_spec (len a + len b) (len a)); [lia|].
  replace (Z.to_nat (len a)) with (length a) by (unfold len; now rewrite Nat2Z.id).
  rewrite skipn_app, Nat.sub_diag, skipn_all.
  simpl. destruct (find_aux_cases sub b (len a)) as [E | (u & v & E & Hv & Hf)].
  - now left.
  - right. exists u, v. repeat split; [assumption..|]. now rewrite len_app.
Qed.

Lemma join_chars s : join [] (chars s) = s.
Proof.
  induction s as [|a s IH]; [reflexivity|].
  unfold chars in *. simpl map. destruct s as [|b s]; [reflexivity|].
  change (join [] ([a] :: map (fun c => [c]) (b :: s)))
    with ([a] ++ [] ++ join [] (map (fun c => [c]) (b :: s))).
  now rewrite IH.
Qed.

(** Replacing a one-character string by the empty string removes that
    character. *)
Lemma replace_scan_char fuel c s :
  (length s <= fuel)%nat ->
  replace_scan fuel [c] [] s = filter (fun x => negb (Ascii.eqb c x)) s.
Proof.
  revert s; induction fuel as [|f IH]; intros s Hs.
  - destruct s; [reflexivity | simpl in Hs; lia].
  - destruct s as [|b s]; [reflexivity|].
    simpl in Hs. simpl. rewrite andb_true_r.
    destruct (Ascii.eqb c b); simpl; rewrite IH by lia; reflexivity.
Qed.

Lemma replace_char s c :
  replace s [c] [] = filter (fun x => negb (Ascii.eqb c x)) s.
Proof. apply replace_scan_char. lia. Qed.

Lemma filter_id {A} (f : A -> bool) l : forallb f l = true -> filter f l = l.
Proof.
  induction l as [|a l IH]; simpl; [reflexivity|].
  intros H. apply andb_true_iff in H as [-> H]. now rewrite IH.
Qed.

(* ===================================================================== *)
(** * Facts about the identity generator *)
(* ===================================================================== *)

Module UuidFacts.
Import Uuid.

Lemma nibble_range n k : 0 <= nibble n k < 16.
Proof.
  unfold nibble. change 15 with (Z.ones 4).
  rewrite Z.land_ones by lia. apply Z.mod_pos_bound. reflexivity.
Qed.

Ltac enum16 d :=
  let H := fresh in
  assert (H : d = 0 \/ d = 1 \/ d = 2 \/ d = 3 \/ d = 4 \/ d = 5 \/ d = 6 \/
              d = 7 \/ d = 8 \/ d = 9 \/ d = 10 \/ d = 11 \/ d = 12 \/
              d = 13 \/ d = 14 \/ d = 15) by lia;
  repeat (destruct H as [H|H]; [subst d|]); [..|subst d].

Lemma upper_hex_digit d :
  0 <= d < 16 ->
  is_upper_hex (upper_char (hex_digit d)) = true /\
  negb (Ascii.eqb "-" (upper_char (hex_digit d))) = true /\
  unhex (upper_char (hex_digit d)) = d.
Proof.
  intros Hd. enum16 d; vm_compute; repeat split.
Qed.

Lemma format_032x_length u : length (format_032x u) = 32%nat.
Proof. unfold format_032x. now rewrite length_map, length_seq. Qed.

Lemma upper_format_no_dash u :
  forallb (fun x => negb (Ascii.eqb "-" x)) (upper (format_032x u)) = true.
Proof.
  unfold upper, format_032x. rewrite map_map. apply forallb_forall.
  intros c Hc. apply in_map_iff in Hc as (i & <- & _).
  apply upper_hex_digit, nibble_range.
Qed.

(** The 8-4-4-4-12 grouping cuts a 32-character string in five pieces. *)
Lemma grouping_pieces (x : str) :
  length x = 32%nat ->
  exists a b c d e,
    x = a ++ b ++ c ++ d ++ e /\
    slice x None (Some 8) = a /\ slice x (Some 8) (Some 12) = b /\
    slice x (Some 12) (Some 16) = c /\ slice x (Some 16) (Some 20) = d /\
    slice x (Some 20) None = e.
Proof.
  intros H. do 32 (destruct x as [|? x]; [discriminate H|]).
  destruct x; [|discriminate H].
  repeat eexists; reflexivity.
Qed.

Lemma upper_to_str_no_dash u :
  replace (upper (to_str u)) (lit "-") [] = upper (format_032x u).
Proof.
  pose proof (upper_format_no_dash u) as Hx.
  unfold to_str.
  destruct (grouping_pieces _ (format_032x_length u))
    as (a & b & c & d & e & E & -> & -> & -> & -> & ->).
  rewrite E in Hx |- *. clear E.
  change (lit "-") with ["-"%char]. rewrite replace_char.
  unfold upper in *. rewrite !map_app in *. rewrite !forallb_app in Hx.
  repeat (apply andb_true_iff in Hx as [? Hx]).
  rewrite !filter_app. simpl (filter _ (map _ ["-"%char])).
  rewrite !filter_id by assumption. reflexivity.
Qed.

(** The pure part of [generate_xcode_uuid], in closed form. *)
Lemma xcode_format_leading24 u :
  join [] (chars (slice (replace (upper (to_str u)) (lit "-") []) None (Some 24)))
  = leading24 u.
Proof.
  rewrite join_chars, upper_to_str_no_dash, slice_upto.
  unfold upper, format_032x, len. rewrite !length_map, length_seq.
  rewrite map_map. change (clip (Z.of_nat 32) 24) with 24%nat.
  rewrite firstn_map. reflexivity.
Qed.

Lemma leading24_length u : length (leading24 u) = 24%nat.
Proof. unfold leading24. now rewrite length_map, length_seq. Qed.

Lemma leading24_hex u : forallb is_upper_hex (leading24 u) = true.
Proof.
  apply forallb_forall. intros c Hc.
  apply in_map_iff in Hc as (i & <- & _).
  apply upper_hex_digit, nibble_range.
Qed.

End UuidFacts.

Lemma generate_xcode_uuid_run w :
  generate_xcode_uuid w = (Ok (identity (entropy w) (drawn w)), tick w).
Proof.
  unfold generate_xcode_uuid, bind, uuid_uuid4, ret, identity, tick.
  now rewrite UuidFacts.xcode_format_leading24.
Qed.

Module IdentityFacts.
Import Uuid UuidFacts.

Lemma uuid4_high_bits r n : 128 <= n -> Z.testbit (uuid4 r) n = false.
Proof.
  intros Hn. unfold uuid4.
  rewrite Z.lor_spec, Z.land_spec, Z.lor_spec, Z.land_spec.
  rewrite Z.mod_pow2_bits_high by lia.
  assert (A : Z.testbit (Z.shiftl 32768 48) n = false).
  { apply Z.bits_above_log2; [vm_compute; discriminate|].
    change (Z.log2 (Z.shiftl 32768 48)) with 63. lia. }
  assert (B : Z.testbit (Z.shiftl 4 76) n = false).
  { apply Z.bits_above_log2; [vm_compute; discriminate|].
    change (Z.log2 (Z.shiftl 4 76)) with 78. lia. }
  now rewrite A, B.
Qed.

Lemma nibble_testbit u k b :
  0 <= b < 4 -> Z.testbit (nibble u k) b = Z.testbit u (b + 4 * Z.of_nat k).
Proof.
  intros Hb. unfold nibble. rewrite Z.land_spec, Z.shiftr_spec by lia.
  assert (E : Z.testbit 15 b = true).
  { assert (b = 0 \/ b = 1 \/ b = 2 \/ b = 3) as [->|[->|[->| ->]]] by lia;
      reflexivity. }
  now rewrite E, andb_true_r.
Qed.

Lemma nibble_shiftr u k :
  (8 <= k)%nat -> nibble u k = nibble (Z.shiftr u 32) (k - 8).
Proof.
  intros Hk. unfold nibble. rewrite Z.shiftr_shiftr by lia.
  do 2 f_equal. lia.
Qed.

Lemma hex_digit_inj d e :
  0 <= d < 16 -> 0 <= e < 16 ->
  upper_char (hex_digit d) = upper_char (hex_digit e) -> d = e.
Proof.
  intros Hd He E.
  rewrite <- (proj2 (proj2 (upper_hex_digit d Hd))).
  rewrite <- (proj2 (proj2 (upper_hex_digit e He))).
  now rewrite E.
Qed.

(** Two UUIDs below [2^128] have the same 24 leading digits exactly when
    they agree above their 32 low bits. *)
Lemma leading24_eq_iff u1 u2 :
  (forall n, 128 <= n -> Z.testbit u1 n = false) ->
  (forall n, 128 <= n -> Z.testbit u2 n = false) ->
  leading24 u1 = leading24 u2 <-> Z.shiftr u1 32 = Z.shiftr u2 32.
Proof.
  intros H1 H2. unfold leading24. split.
  - intros H0. pose proof (proj1 map_ext_in_iff H0) as H.
    cbv beta in H.
    assert (N : forall k, (8 <= k <= 31)%nat -> nibble u1 k = nibble u2 k).
    { intros k Hk. apply hex_digit_inj; try apply nibble_range.
      replace k with (31 - (31 - k))%nat by lia.
      apply H. apply in_seq. lia. }
    apply Z.bits_inj'. intros n Hn. rewrite !Z.shiftr_spec by assumption.
    destruct (Z.lt_ge_cases (n + 32) 128) as [Hlt|Hge].
    + pose proof (Z.div_mod (n + 32) 4 ltac:(lia)) as Hdm.
      pose proof (Z.mod_pos_bound (n + 32) 4 ltac:(lia)) as Hb.
      set (k := Z.to_nat ((n + 32) / 4)).
      assert (Hk : Z.of_nat k = (n + 32) / 4).
      { subst k. apply Z2Nat.id. apply Z.div_pos; lia. }
      assert (Hkr : (8 <= k <= 31)%nat).
      { assert (8 <= (n + 32) / 4) by (apply Z.div_le_lower_bound; lia).
        assert ((n + 32) / 4 < 32) by (apply Z.div_lt_upper_bound; lia).
        lia. }
      replace (n + 32) with ((n + 32) mod 4 + 4 * Z.of_nat k) by lia.
      rewrite <- !nibble_testbit by assumption. now rewrite (N k Hkr).
    + now rewrite H1, H2 by lia.
  - intros E. apply map_ext_in. intros i Hi. apply in_seq in Hi.
    rewrite !(nibble_shiftr _ (31 - i)) by lia. now rewrite E.
Qed.

End IdentityFacts.

Lemma identity_eq_iff rnd i j :
  identity rnd i = identity rnd j <-> retained (rnd i) = retained (rnd j).
Proof.
  unfold identity, retained.
  apply IdentityFacts.leading24_eq_iff; apply IdentityFacts.uuid4_high_bits.
Qed.

(* ===================================================================== *)
(** * What the registration loop computes *)
(* ===================================================================== *)

Lemma advance_advance w n out m out' :
  advance (advance w n out) m out' = advance w (m + n) (out ++ out').
Proof.
  unfold advance; simpl. f_equal; [lia | now rewrite <- app_assoc].
Qed.

Lemma print_run s w : print s w = (Ok tt, advance w 0 [s]).
Proof. reflexivity. Qed.

Lemma generate_run w :
  generate_xcode_uuid w = (Ok (identity (entropy w) (drawn w)), advance w 1 []).
Proof.
  rewrite generate_xcode_uuid_run. unfold tick, advance.
  now rewrite app_nil_r.
Qed.

(** The three ways through the loop body. *)
Lemma register_entry_missing content file_path group_name st w :
  fs w file_path = None ->
  register_entry content (file_path, group_name) st w
  = (Ok st, advance w 0 [lit "Warning: " ++ file_path ++ lit " does not exist"]).
Proof.
  intros H. unfold register_entry, bind, os_path_exists. now rewrite H.
Qed.

Lemma register_entry_present content file_path group_name st w :
  fs w file_path <> None ->
  isin (basename file_path) content = true ->
  register_entry content (file_path, group_name) st w
  = (Ok st,
     advance w 2 [lit "Skipping " ++ basename file_path ++
                  lit " - already in project"]).
Proof.
  intros H Hin. unfold register_entry, bind, os_path_exists.
  destruct (fs w file_path) eqn:E; [|congruence]. cbn [negb].
  cbv beta iota zeta. rewrite generate_run. cbv beta iota zeta.
  rewrite generate_run. cbv beta iota zeta.
  rewrite Hin, print_run. unfold ret. rewrite !advance_advance. reflexivity.
Qed.

Lemma register_entry_new content file_path group_name st w :
  fs w file_path <> None ->
  isin (basename file_path) content = false ->
  register_entry content (file_path, group_name) st w
  = (Ok (stage st (mkReg (basename file_path) group_name
                         (identity (entropy w) (drawn w))
                         (identity (entropy w) (1 + drawn w)))),
     advance w 2 [lit "Adding: " ++ basename file_path ++ lit " to " ++
                  group_name ++ lit " group"]).
Proof.
  intros H Hin. unfold register_entry, bind, os_path_exists.
  destruct (fs w file_path) eqn:E; [|congruence]. cbn [negb].
  cbv beta iota zeta. rewrite generate_run. cbv beta iota zeta.
  rewrite generate_run. cbv beta iota zeta.
  rewrite Hin, print_run. unfold ret. rewrite !advance_advance. reflexivity.
Qed.

Lemma on_disk_true disk p : on_disk disk p = true <-> disk p <> None.
Proof. unfold on_disk. destruct (disk p); split; congruence. Qed.

Lemma on_disk_false disk p : on_disk disk p = false <-> disk p = None.
Proof. unfold on_disk. destruct (disk p); split; congruence. Qed.

(** The loop never raises, leaves the disk alone, and stages exactly the
    registrations. *)
Lemma register_loop content files :
  forall st w,
  exists out,
    for_each files (register_entry content) st w
    = (Ok (fold_left stage
             (registrations (fs w) (entropy w) content (drawn w) files) st),
       advance w (draws (fs w) files) out).
Proof.
  induction files as [|[file_path group_name] rest IH]; intros st w.
  - exists []. unfold advance, draws; simpl. rewrite app_nil_r.
    now destruct w.
  - cbn [for_each registrations]. unfold bind.
    destruct (on_disk (fs w) file_path) eqn:D.
    + apply on_disk_true in D as D'.
      destruct (isin (basename file_path) content) eqn:Hin.
      * rewrite register_entry_present by assumption.
        edestruct IH as [out ->]. eexists.
        rewrite advance_advance. cbn [fs entropy drawn advance].
        unfold draws. cbn [filter fst]. rewrite D. cbn [length]. 
        rewrite Nat.add_comm. f_equal. f_equal. lia.
      * rewrite register_entry_new by assumption.
        edestruct IH as [out ->]. eexists.
        rewrite advance_advance. cbn [fs entropy drawn advance fold_left].
        unfold draws. cbn [filter fst]. rewrite D. cbn [length].
        rewrite Nat.add_comm. f_equal. f_equal. lia.
    + apply on_disk_false in D as D'.
      rewrite register_entry_missing by assumption.
      edestruct IH as [out ->]. eexists.
      rewrite advance_advance. cbn [fs entropy drawn advance].
      unfold draws. cbn [filter fst]. rewrite D. 
      rewrite Nat.add_0_r. reflexivity.
Qed.

Lemma staged_file_refs regs st :
  file_refs_section (fold_left stage regs st)
  = file_refs_section st ++
    map (fun r => file_ref_line (reg_file_uuid r) (reg_name r)) regs.
Proof.
  revert st; induction regs as [|r regs IH]; intros st; simpl.
  - now rewrite app_nil_r.
  - rewrite IH. simpl. now rewrite <- app_assoc.
Qed.

Lemma staged_build_files regs st :
  build_files_section (fold_left stage regs st)
  = build_files_section st ++
    map (fun r => build_file_line (reg_build_uuid r) (reg_file_uuid r)
                                  (reg_name r)) regs.
Proof.
  revert st; induction regs as [|r regs IH]; intros st; simpl.
  - now rewrite app_nil_r.
  - rewrite IH. simpl. now rewrite <- app_assoc.
Qed.

Lemma staged_sources regs st :
  sources_build_phase (fold_left stage regs st)
  = sources_build_phase st ++
    map (fun r => sources_line (reg_build_uuid r) (reg_name r)) regs.
Proof.
  revert st; induction regs as [|r regs IH]; intros st; simpl.
  - now rewrite app_nil_r.
  - rewrite IH. simpl. now rewrite <- app_assoc.
Qed.

Lemma print_only_prints s : only_prints (print s).
Proof. intros w. exists tt, [s]. apply print_run. Qed.

Lemma bind_only_prints {A B} (c : M A) (k : A -> M B) :
  only_prints c -> (forall a, only_prints (k a)) -> only_prints (bind c k).
Proof.
  intros Hc Hk w. destruct (Hc w) as (a & out & E).
  destruct (Hk a (advance w 0 out)) as (b & out' & E').
  exists b, (out ++ out'). unfold bind. rewrite E, E'.
  now rewrite advance_advance.
Qed.

Lemma for_each_only_prints {A S} (xs : list A) (body : A -> S -> M S) :
  (forall x s, only_prints (body x s)) ->
  forall s, only_prints (for_each xs body s).
Proof.
  intros Hb. induction xs as [|x xs IH]; intros s.
  - intros w. exists s, []. unfold advance; simpl.
    rewrite app_nil_r. now destruct w.
  - simpl. apply bind_only_prints; auto.
Qed.

Lemma print_group_hints_only_prints gc : only_prints (print_group_hints gc).
Proof.
  apply for_each_only_prints. intros [group files] [].
  apply bind_only_prints; [apply print_only_prints|]. intros _.
  apply for_each_only_prints. intros; apply print_only_prints.
Qed.

(* ===================================================================== *)
(** * The script as a whole *)
(* ===================================================================== *)

Lemma closing_prints msg gc :
  only_prints
    (print msg ;;
     print ([NL] ++ lit "Note: You may need to manually organize files into groups in Xcode") ;;
     print_group_hints gc).
Proof.
  apply bind_only_prints; [apply print_only_prints|]. intros _.
  apply bind_only_prints; [apply print_only_prints|]. intros _.
  apply print_group_hints_only_prints.
Qed.

Lemma add_files_no_manifest files w :
  manifest w = None ->
  add_files files w = (Raise (FileNotFoundError project_file), w).
Proof.
  intros H. unfold add_files, bind, read_file. unfold manifest in H.
  now rewrite H.
Qed.

Lemma add_files_run files w T regs :
  manifest w = Some T ->
  regs = registrations (fs w) (entropy w) T (drawn w) files ->
  exists w',
    add_files files w = (Ok tt, w') /\
    fs w' = match regs with
            | [] => fs w
            | _ :: _ =>
                put (fs w) project_file
                    (apply_insertions T (fold_left stage regs empty_staging))
            end /\
    entropy w' = entropy w /\
    drawn w' = (draws (fs w) files + drawn w)%nat /\
    exists out, stdout w' = stdout w ++ out.
Proof.
  intros H Hregs. unfold manifest in H.
  unfold add_files, bind at 1, read_file. rewrite H.
  unfold bind at 1.
  destruct (register_loop T files empty_staging w) as [out ->].
  rewrite <- Hregs. clear Hregs.
  assert (Hrefs : file_refs_section (fold_left stage regs empty_staging)
                  = map (fun r => file_ref_line (reg_file_uuid r) (reg_name r)) regs)
    by now rewrite staged_file_refs.
  destruct regs as [|r regs'].
  - rewrite Hrefs. cbn [map]. cbv iota. rewrite print_run.
    eexists. split; [reflexivity|]. cbn.
    repeat split; try reflexivity. eexists. now rewrite <- app_assoc.
  - set (st := fold_left stage (r :: regs') empty_staging) in *.
    rewrite Hrefs. cbn [map]. cbv iota.
    unfold bind at 1, write_file.
    match goal with
    | |- context [bind (print ?m) _ ?w0] =>
        destruct (closing_prints m (group_children st) w0) as ([] & out' & E)
    end.
    rewrite E. eexists. split; [reflexivity|]. cbn.
    repeat split; try reflexivity. eexists. now rewrite <- app_assoc.
Qed.

(** What a run of the script leaves of the world, apart from the console. *)
Lemma add_files_state files w :
  let w' := snd (add_files files w) in
  match manifest w with
  | None => w' = w
  | Some T =>
      fs w' = match registrations (fs w) (entropy w) T (drawn w) files with
              | [] => fs w
              | (_ :: _) as regs =>
                  put (fs w) project_file
                      (apply_insertions T (fold_left stage regs empty_staging))
              end /\
      drawn w' = (draws (fs w) files + drawn w)%nat
  end.
Proof.
  intros w'. subst w'. destruct (manifest w) as [T|] eqn:HT.
  - destruct (add_files_run files w T _ HT eq_refl)
      as (w' & -> & Hfs & _ & Hd & _).
    cbn [snd]. split; [rewrite Hfs | exact Hd].
    now destruct (registrations _ _ _ _ _).
  - now rewrite (add_files_no_manifest _ _ HT).
Qed.

(* ===================================================================== *)
(** * What the splices do to the text *)
(* ===================================================================== *)

Lemma splice_at a b section :
  splice (a ++ b) (len a) section = a ++ block section ++ b.
Proof.
  unfold splice, block. rewrite slice_upto_app, slice_from_app.
  now rewrite <- !app_assoc.
Qed.

(** A bound of [-1] cuts before the last character. *)
Lemma splice_minus_one a c section :
  splice (a ++ [c]) (-1) section = a ++ block section ++ [c].
Proof.
  assert (E : clip (len (a ++ [c])) (-1) = length a).
  { unfold clip. rewrite len_app. pose proof (len_nonneg a).
    change (len [c]) with 1. simpl (-1 <? 0). cbv iota.
    rewrite Z.max_r by lia. unfold len.
    replace (Z.of_nat (length a) + 1 + -1) with (Z.of_nat (length a)) by lia.
    apply Nat2Z.id. }
  unfold splice, block. rewrite slice_upto, slice_from, E.
  rewrite firstn_app, skipn_app, Nat.sub_diag, firstn_all, skipn_all.
  simpl. now rewrite app_nil_r, <- !app_assoc.
Qed.

(** The splice before a section end marker: skipped when the marker is
    absent, and otherwise an insertion right before its first occurrence. *)
Lemma insert_at_marker_cases marker content section :
  let r := if isin marker content
           then splice content (find content marker) section
           else content in
  (isin marker content = false /\ r = content) \/
  (isin marker content = true /\
   exists a b, content = a ++ b /\ prefixb marker b = true /\
               r = a ++ block section ++ b).
Proof.
  intros r; subst r.
  destruct (find_cases content marker) as [[H _] | [H (a & b & E & Hb & Hf)]];
    rewrite H; [now left|].
  right. split; [reflexivity|]. exists a, b. repeat split; try assumption.
  rewrite Hf, E. apply splice_at.
Qed.

(** The build phase splice: when it applies, it inserts either right before
    a closing parenthesis, or, when no [");"] follows, before the last
    character of the text. *)
Lemma insert_sources_cases content section :
  (sources_anchor content = false /\ insert_sources content section = content) \/
  (sources_anchor content = true /\
   exists a c b,
     content = a ++ c :: b /\ (c = ")"%char \/ b = []) /\
     insert_sources content section = a ++ block section ++ c :: b).
Proof.
  unfold insert_sources, sources_anchor.
  destruct (find_cases content sources_marker)
    as [[H _] | [H (a0 & b0 & E & _ & Hf)]]; rewrite H; [now left|].
  rewrite Hf. cbn [andb].
  destruct (find_from_cases content (lit "files = (") a0 b0 E)
    as [F | (u & v & Eb & Hv & F)]; rewrite F; [now left|].
  pose proof (len_nonneg (a0 ++ u)) as Hpos.
  destruct (Z.eqb_spec (len (a0 ++ u)) (-1)); [lia|]. cbn [negb].
  right. split; [reflexivity|].
  assert (E' : content = (a0 ++ u) ++ v) by (now rewrite E, Eb, <- app_assoc).
  destruct (find_from_cases content (lit ");") (a0 ++ u) v E')
    as [G | (u' & v' & Ev & Hv' & G)]; rewrite G.
  - destruct (prefixb_split _ _ Hv) as [rest Er].
    assert (Hne : content <> []).
    { rewrite E', Er. destruct (a0 ++ u); discriminate. }
    destruct (exists_last Hne) as (a & c & Ec).
    exists a, c, []. repeat split; [assumption | now right|].
    rewrite Ec. apply splice_minus_one.
  - destruct (prefixb_split _ _ Hv') as [rest Er].
    exists ((a0 ++ u) ++ u'), ")"%char, (";"%char :: rest).
    assert (E'' : content = ((a0 ++ u) ++ u') ++ ")"%char :: ";"%char :: rest).
    { rewrite E', Ev, Er. now rewrite <- !app_assoc. }
    repeat split; [assumption | now left|].
    rewrite E'' at 1. apply splice_at.
Qed.

(** ** Insertion as a relation between texts *)

Lemma inserted_one a x b : inserted (a ++ b) (a ++ x ++ b).
Proof. apply inserted_step with (x := x). apply inserted_refl. Qed.

Lemma inserted_trans T1 T2 T3 :
  inserted T1 T2 -> inserted T2 T3 -> inserted T1 T3.
Proof.
  induction 1; [trivial|]. intros H'. eapply inserted_step. eauto.
Qed.

Lemma inserted_app_l p T T' : inserted T T' -> inserted (p ++ T) (p ++ T').
Proof.
  induction 1 as [|a x b T' _ IH]; [apply inserted_refl|].
  rewrite app_assoc. apply inserted_step with (x := x).
  now rewrite <- app_assoc.
Qed.

Lemma inserted_length T T' :
  inserted T T' -> (length T <= length T')%nat.
Proof.
  induction 1 as [|a x b T' _ IH]; [lia|].
  rewrite !length_app in *. lia.
Qed.

Lemma insert_file_refs_inserted content section :
  inserted content (insert_file_refs content section).
Proof.
  destruct (insert_at_marker_cases file_ref_marker content section)
    as [[_ E] | [_ (a & b & E & _ & E')]]; unfold insert_file_refs.
  - rewrite E. apply inserted_refl.
  - rewrite E'. rewrite E at 1. apply inserted_one.
Qed.

Lemma insert_build_files_inserted content section :
  inserted content (insert_build_files content section).
Proof.
  destruct (insert_at_marker_cases build_file_marker content section)
    as [[_ E] | [_ (a & b & E & _ & E')]]; unfold insert_build_files.
  - rewrite E. apply inserted_refl.
  - rewrite E'. rewrite E at 1. apply inserted_one.
Qed.

Lemma insert_sources_inserted content section :
  inserted content (insert_sources content section).
Proof.
  destruct (insert_sources_cases content section)
    as [[_ E] | [_ (a & c & b & E & _ & E')]].
  - rewrite E. apply inserted_refl.
  - rewrite E'. rewrite E at 1. apply inserted_one.
Qed.

Lemma apply_insertions_inserted content st :
  inserted content (apply_insertions content st).
Proof.
  unfold apply_insertions.
  eapply inserted_trans; [apply insert_file_refs_inserted|].
  eapply inserted_trans; [apply insert_build_files_inserted|].
  apply insert_sources_inserted.
Qed.

(** ** When the splices leave the text alone *)

Lemma block_length section : (0 < length (block section))%nat.
Proof. unfold block. rewrite length_app. simpl. lia. Qed.

Lemma insert_file_refs_length content section :
  if isin file_ref_marker content
  then (length content < length (insert_file_refs content section))%nat
  else insert_file_refs content section = content.
Proof.
  destruct (insert_at_marker_cases file_ref_marker content section)
    as [[H E] | [H (a & b & E & _ & E')]]; rewrite H; unfold insert_file_refs.
  - now rewrite H.
  - rewrite E'. rewrite E at 1. pose proof (block_length section).
    rewrite !length_app. lia.
Qed.

Lemma insert_build_files_length content section :
  if isin build_file_marker content
  then (length content < length (insert_build_files content section))%nat
  else insert_build_files content section = content.
Proof.
  destruct (insert_at_marker_cases build_file_marker content section)
    as [[H E] | [H (a & b & E & _ & E')]]; rewrite H; unfold insert_build_files.
  - now rewrite H.
  - rewrite E'. rewrite E at 1. pose proof (block_length section).
    rewrite !length_app. lia.
Qed.

Lemma insert_sources_length content section :
  if sources_anchor content
  then (length content < length (insert_sources content section))%nat
  else insert_sources content section = content.
Proof.
  destruct (insert_sources_cases content section)
    as [[H E] | [H (a & c & b & E & _ & E')]]; rewrite H; [assumption|].
  rewrite E'. rewrite E at 1. pose proof (block_length section).
  rewrite !length_app. lia.
Qed.

(** The three splices together leave the text as it is exactly when none
    of the three anchors is found in it. *)
Lemma apply_insertions_fixed content st :
  apply_insertions content st = content <->
  isin file_ref_marker content = false /\
  isin build_file_marker content = false /\
  sources_anchor content = false.
Proof.
  unfold apply_insertions.
  pose proof (insert_file_refs_length content (file_refs_section st)) as H1.
  set (c1 := insert_file_refs content (file_refs_section st)) in *.
  pose proof (insert_build_files_length c1 (build_files_section st)) as H2.
  set (c2 := insert_build_files c1 (build_files_section st)) in *.
  pose proof (insert_sources_length c2 (sources_build_phase st)) as H3.
  set (c3 := insert_sources c2 (sources_build_phase st)) in *.
  pose proof (inserted_length _ _ (insert_file_refs_inserted content (file_refs_section st))) as L1.
  pose proof (inserted_length _ _ (insert_build_files_inserted c1 (build_files_section st))) as L2.
  pose proof (inserted_length _ _ (insert_sources_inserted c2 (sources_build_phase st))) as L3.
  fold c1 in L1. fold c2 in L2. fold c3 in L3.
  split.
  - intros E. apply (f_equal (@length ascii)) in E.
    destruct (isin file_ref_marker content); [lia|]. rewrite H1 in *.
    destruct (isin build_file_marker content); [lia|]. rewrite H2 in *.
    destruct (sources_anchor content); [lia|]. auto.
  - intros (E1 & E2 & E3). rewrite E1 in H1. rewrite H1 in *.
    rewrite E2 in H2. rewrite H2 in *. rewrite E3 in H3. exact H3.
Qed.

(* ===================================================================== *)
(** * Facts about [registrations] *)
(* ===================================================================== *)

Lemma draws_app disk l1 l2 :
  draws disk (l1 ++ l2) = (draws disk l1 + draws disk l2)%nat.
Proof. unfold draws. rewrite filter_app, length_app. lia. Qed.

Lemma registrations_app disk rnd content l1 l2 k :
  registrations disk rnd content k (l1 ++ l2)
  = registrations disk rnd content k l1 ++
    registrations disk rnd content (draws disk l1 + k) l2.
Proof.
  revert k; induction l1 as [|[p g] l1 IH]; intros k; [reflexivity|].
  cbn [app registrations]. unfold draws. cbn [filter fst].
  destruct (on_disk disk p); [|apply IH].
  replace (2 * length ((p, g) :: filter (fun e => on_disk disk (fst e)) l1)
           + k)%nat
    with (draws disk l1 + (2 + k))%nat by (unfold draws; simpl; lia).
  destruct (isin (basename p) content); rewrite IH; reflexivity.
Qed.

(** Nothing is registered when every entry's display name is in the text. *)
Lemma registrations_all_present disk rnd content files :
  (forall p g, In (p, g) files -> isin (basename p) content = true) ->
  forall k, registrations disk rnd content k files = [].
Proof.
  induction files as [|[p g] rest IH]; intros H k; [reflexivity|].
  cbn [registrations]. rewrite (H p g) by now left.
  destruct (on_disk disk p); apply IH; intros; eapply H; right; eauto.
Qed.

(** The names registered are those of the entries on disk whose name is not
    in the text, whatever the others are. *)
Lemma registrations_names disk rnd content files :
  forall k,
    map reg_name (registrations disk rnd content k files)
    = map (fun e => basename (fst e))
          (filter (fun e => on_disk disk (fst e) &&
                            negb (isin (basename (fst e)) content)) files).
Proof.
  induction files as [|[p g] rest IH]; intros k; [reflexivity|].
  cbn [registrations filter fst].
  destruct (on_disk disk p); cbn [andb]; [|apply IH].
  destruct (isin (basename p) content); cbn [negb map reg_name fst];
    now rewrite IH.
Qed.

Lemma registrations_none disk rnd content files :
  (forall p g, In (p, g) files -> on_disk disk p = true ->
               isin (basename p) content = true) ->
  forall k, registrations disk rnd content k files = [].
Proof.
  induction files as [|[p g] rest IH]; intros H k; [reflexivity|].
  cbn [registrations].
  assert (Hrest : forall p0 g0, In (p0, g0) rest -> on_disk disk p0 = true ->
                                isin (basename p0) content = true)
    by (intros; eapply H; [right|]; eauto).
  destruct (on_disk disk p) eqn:D; [|now apply IH].
  rewrite (H p g) by (auto; now left). now apply IH.
Qed.

Lemma registrations_mem disk rnd content files p g :
  In (p, g) files -> on_disk disk p = true ->
  isin (basename p) content = false ->
  forall k, exists r,
    In r (registrations disk rnd content k files) /\ reg_name r = basename p.
Proof.
  intros Hin D Hnot.
  induction files as [|[p' g'] rest IH]; intros k; [destruct Hin|].
  cbn [registrations]. destruct Hin as [E|Hin].
  - injection E as -> ->. rewrite D, Hnot. eexists. split; [now left|].
    reflexivity.
  - destruct (on_disk disk p'); [|now apply IH].
    destruct (isin (basename p') content); [now apply IH|].
    destruct (IH Hin (2 + k)%nat) as (r & Hr & E). exists r.
    split; [now right | exact E].
Qed.

Lemma on_disk_put disk p c q :
  disk p <> None -> on_disk (put disk p c) q = on_disk disk q.
Proof.
  intros H. unfold on_disk, put.
  destruct (str_eq_dec q p) as [->|N]; [|reflexivity].
  destruct (disk p); [reflexivity | contradiction].
Qed.

Lemma staged_identities_window disk rnd content files :
  forall k id,
    In id (staged_identities (registrations disk rnd content k files)) ->
    exists i, (k <= i < k + draws disk files)%nat /\ id = identity rnd i.
Proof.
  induction files as [|[p g] rest IH]; intros k id Hin; [destruct Hin|].
  cbn [registrations] in Hin. unfold draws. cbn [filter fst].
  fold (draws disk rest) in *.
  destruct (on_disk disk p).
  - cbn [length].
    assert (Rest : In id (staged_identities
                            (registrations disk rnd content (2 + k) rest)) ->
                   exists i, (k <= i < k + 2 * S (length (filter (fun e => on_disk disk (fst e)) rest)))%nat /\
                             id = identity rnd i).
    { intros H. destruct (IH _ _ H) as (i & Hi & E). exists i.
      unfold draws in Hi. split; [lia | exact E]. }
    destruct (isin (basename p) content); [now apply Rest|].
    cbn [staged_identities flat_map reg_file_uuid reg_build_uuid app] in Hin.
    destruct Hin as [<-|[<-|Hin]].
    + exists k. split; [lia | reflexivity].
    + exists (1 + k)%nat. split; [lia | reflexivity].
    + now apply Rest.
  - destruct (IH _ _ Hin) as (i & Hi & E). exists i. unfold draws in Hi.
    split; [lia | exact E].
Qed.

Lemma staged_identities_NoDup disk rnd content files :
  forall k,
    (forall i j, (k <= i)%nat -> (i < j)%nat -> (j < k + draws disk files)%nat ->
                 identity rnd i <> identity rnd j) ->
    NoDup (staged_identities (registrations disk rnd content k files)).
Proof.
  induction files as [|[p g] rest IH]; intros k Hinj; [constructor|].
  cbn [registrations]. unfold draws in Hinj. cbn [filter fst] in Hinj.
  destruct (on_disk disk p).
  - cbn [length] in Hinj.
    assert (Rest : NoDup (staged_identities
                            (registrations disk rnd content (2 + k) rest))).
    { apply IH. intros i j H1 H2 H3. apply Hinj; unfold draws in H3; lia. }
    destruct (isin (basename p) content); [exact Rest|].
    cbn [staged_identities flat_map reg_file_uuid reg_build_uuid app].
    constructor; [|constructor; [|exact Rest]].
    + intros [E|Hin].
      * symmetry in E. revert E. apply Hinj; lia.
      * destruct (staged_identities_window _ _ _ _ _ _ Hin) as (i & Hi & E).
        revert E. apply Hinj; unfold draws in Hi; lia.
    + intros Hin.
      destruct (staged_identities_window _ _ _ _ _ _ Hin) as (i & Hi & E).
      revert E. apply Hinj; unfold draws in Hi; lia.
  - apply IH. intros i j H1 H2 H3. apply Hinj; unfold draws in H3; lia.
Qed.

(* ===================================================================== *)
(** * Facts about add_quick_components.py *)
(* ===================================================================== *)

(** Replacing every [old] by [x ++ old] only inserts. *)
Lemma replace_scan_inserted old x fuel :
  forall s, inserted s (replace_scan fuel old (x ++ old) s).
Proof.
  induction fuel as [|f IH]; intros s; [apply inserted_refl|].
  cbn [replace_scan]. destruct (prefixb old s) eqn:Hp.
  - destruct (prefixb_split _ _ Hp) as [r ->].
    rewrite skipn_app, Nat.sub_diag, skipn_all. cbn [skipn app].
    rewrite <- app_assoc.
    eapply inserted_trans; [apply inserted_app_l, IH|].
    apply (inserted_one [] x).
  - destruct s as [|c s]; [apply inserted_refl|].
    apply (inserted_app_l [c]), IH.
Qed.

Lemma replace_inserted s c old x :
  inserted s (replace s (c :: old) (x ++ c :: old)).
Proof. apply replace_scan_inserted. Qed.

Lemma quick_patch_inserted content : inserted content (Quick.patch content).
Proof.
  unfold Quick.patch.
  set (c1 := replace content _ _). set (c2 := replace c1 _ _).
  assert (H1 : inserted content c1).
  { subst c1. rewrite app_assoc. apply replace_inserted. }
  assert (H2 : inserted c1 c2).
  { subst c2. rewrite app_assoc. apply replace_inserted. }
  assert (H : inserted content c2) by (eapply inserted_trans; eauto).
  destruct (negb (find c2 sources_marker =? -1)); [|exact H].
  destruct (negb (find_from c2 _ _ =? -1)); [|exact H].
  eapply inserted_trans; [exact H|].
  set (p := find_from c2 (lit ");") _).
  rewrite <- (slice_glue c2 p) at 1.
  rewrite (app_assoc (sources_line _ _)).
  apply inserted_one.
Qed.

(* ===================================================================== *)
(** * The group hints *)
(* ===================================================================== *)

Lemma dict_get_set_same d k v : dict_get (dict_set d k v) k = Some v.
Proof.
  induction d as [|[k' v'] d IH]; simpl.
  - destruct (str_eq_dec k k); [reflexivity | contradiction].
  - destruct (str_eq_dec k' k) as [E|N]; simpl.
    + destruct (str_eq_dec k' k); [reflexivity | contradiction].
    + destruct (str_eq_dec k' k); [contradiction | exact IH].
Qed.

Lemma dict_get_set_other d k v k' :
  k <> k' -> dict_get (dict_set d k v) k' = dict_get d k'.
Proof.
  intros N. induction d as [|[k0 v0] d IH]; simpl.
  - destruct (str_eq_dec k k'); [contradiction | reflexivity].
  - destruct (str_eq_dec k0 k) as [E|N0]; simpl.
    + subst k0. destruct (str_eq_dec k k'); [contradiction | reflexivity].
    + destruct (str_eq_dec k0 k'); [reflexivity | exact IH].
Qed.

Lemma append_child_lists gc group line :
  listed (append_child gc group line) group line.
Proof.
  unfold listed, append_child.
  destruct (dict_get gc group) as [l|] eqn:E.
  - rewrite E, dict_get_set_same. eexists. split; [reflexivity|].
    apply in_or_app. right. now left.
  - rewrite dict_get_set_same, dict_get_set_same.
    eexists. split; [reflexivity | now left].
Qed.

Lemma append_child_keeps gc group line group' line' :
  listed gc group' line' -> listed (append_child gc group line) group' line'.
Proof.
  intros (l & E & Hin). unfold listed, append_child.
  destruct (str_eq_dec group group') as [<-|N].
  - rewrite E, E, dict_get_set_same. eexists. split; [reflexivity|].
    apply in_or_app. now left.
  - destruct (dict_get gc group) as [l0|] eqn:E0.
    + rewrite E0, dict_get_set_other, E by assumption. eauto.
    + rewrite dict_get_set_same, !dict_get_set_other, E by assumption. eauto.
Qed.

Lemma staged_group_children regs :
  forall st r,
    In r regs ->
    listed (group_children (fold_left stage regs st)) (reg_group r)
           (group_child_line (reg_file_uuid r) (reg_name r)).
Proof.
  assert (Keep : forall regs st g l,
             listed (group_children st) g l ->
             listed (group_children (fold_left stage regs st)) g l).
  { clear. induction regs as [|r0 regs IH]; intros st g l H; [exact H|].
    cbn [fold_left]. apply IH. cbn [stage group_children].
    now apply append_child_keeps. }
  induction regs as [|r0 regs IH]; intros st r Hin; [destruct Hin|].
  destruct Hin as [E|Hin].
  - subst r0. cbn [fold_left]. apply Keep.
    cbn [stage group_children]. apply append_child_lists.
  - cbn [fold_left]. now apply IH.
Qed.

Lemma registrations_ungrouped disk rnd content files :
  forall files' k,
    map fst files = map fst files' ->
    map ungrouped (registrations disk rnd content k files)
    = map ungrouped (registrations disk rnd content k files').
Proof.
  induction files as [|[p g] rest IH]; intros [|[p' g'] rest'] k E;
    try discriminate E; [reflexivity|].
  cbn [map fst] in E. injection E as -> E.
  cbn [registrations]. destruct (on_disk disk p'); [|now apply IH].
  destruct (isin (basename p') content); cbn [map]; [now apply IH|].
  f_equal. now apply IH.
Qed.

(** The three buffers that reach the text do not depend on the groups. *)
Lemma apply_insertions_ungrouped content regs regs' :
  map ungrouped regs = map ungrouped regs' ->
  apply_insertions content (fold_left stage regs empty_staging)
  = apply_insertions content (fold_left stage regs' empty_staging).
Proof.
  intros E. unfold apply_insertions.
  rewrite !staged_file_refs, !staged_build_files, !staged_sources.
  cbn [empty_staging file_refs_section build_files_section
       sources_build_phase app].
  assert (F1 : forall l,
             map (fun r => file_ref_line (reg_file_uuid r) (reg_name r)) l
             = map (fun r => file_ref_line (reg_file_uuid r) (reg_name r))
                   (map ungrouped l))
    by (intros; now rewrite map_map).
  assert (F2 : forall l,
             map (fun r => build_file_line (reg_build_uuid r) (reg_file_uuid r)
                                           (reg_name r)) l
             = map (fun r => build_file_line (reg_build_uuid r)
                                             (reg_file_uuid r) (reg_name r))
                   (map ungrouped l))
    by (intros; now rewrite map_map).
  assert (F3 : forall l,
             map (fun r => sources_line (reg_build_uuid r) (reg_name r)) l
             = map (fun r => sources_line (reg_build_uuid r) (reg_name r))
                   (map ungrouped l))
    by (intros; now rewrite map_map).
  rewrite (F1 regs), (F2 regs), (F3 regs), (F1 regs'), (F2 regs'), (F3 regs').
  now rewrite E.
Qed.

(* ===================================================================== *)
(** * Which names occur in the text after the splices *)
(* ===================================================================== *)

(** An insertion right before a character that a name does not contain
    cannot break an occurrence of that name. *)
Lemma occurs_insert n a x b c :
  hd_error b = Some c -> ~ In c n ->
  occurs n (a ++ b) -> occurs n (a ++ x ++ b).
Proof.
  intros Hb Hc (u & v & E).
  apply app_eq_app in E as [l [[E1 E2]|[E1 E2]]].
  - apply app_eq_app in E2 as [m [[E3 E4]|[E3 E4]]].
    + destruct m as [|c' m].
      * rewrite app_nil_r in E3. subst l a.
        apply occurs_app_l. exists u, []. now rewrite app_nil_r.
      * exfalso. rewrite E4 in Hb. simpl in Hb. injection Hb as ->.
        apply Hc. rewrite E3. apply in_or_app. right. now left.
    + subst l a. apply occurs_app_l. now exists u, m.
  - subst b. do 2 apply occurs_app_r. now exists l, v.
Qed.

Lemma prefixb_hd marker b c rest :
  marker = c :: rest -> prefixb marker b = true -> hd_error b = Some c.
Proof.
  intros -> H. destruct (prefixb_split _ _ H) as [r ->]. reflexivity.
Qed.

Lemma ends_with_insert c a x b :
  b <> [] -> ends_with c (a ++ x ++ b) -> ends_with c (a ++ b).
Proof.
  intros Hb [s0 E]. destruct (exists_last Hb) as (b0 & c' & ->).
  rewrite !app_assoc in E. apply app_inj_tail in E as [_ ->].
  exists (a ++ b0). now rewrite app_assoc.
Qed.

Lemma ends_with_last c s : ends_with c s -> last s ")"%char = c.
Proof. intros [s0 ->]. apply last_last. Qed.

(** ** What each splice keeps *)

Section Keeps.

Variable n : str.
Hypothesis no_slash : ~ In "/"%char n.

Lemma insert_at_marker_keeps marker rest content section :
  marker = "/"%char :: rest ->
  occurs n content ->
  occurs n (if isin marker content
            then splice content (find content marker) section
            else content).
Proof.
  intros Hm Hn.
  destruct (insert_at_marker_cases marker content section)
    as [[_ E] | [_ (a & b & E & Hb & E')]].
  - now rewrite E.
  - rewrite E'. rewrite E in Hn.
    eapply occurs_insert; eauto using prefixb_hd.
Qed.

Lemma insert_at_marker_ends marker rest c content section :
  marker = "/"%char :: rest ->
  ends_with c (if isin marker content
               then splice content (find content marker) section
               else content) ->
  ends_with c content.
Proof.
  intros Hm H.
  destruct (insert_at_marker_cases marker content section)
    as [[_ E] | [_ (a & b & E & Hb & E')]].
  - now rewrite E in H.
  - rewrite E' in H. rewrite E. eapply ends_with_insert; [|exact H].
    destruct (prefixb_split _ _ Hb) as [r ->]. now rewrite Hm.
Qed.

Lemma insert_sources_keeps content section :
  ~ In ")"%char n ->
  (forall c, ends_with c content -> ~ In c n) ->
  occurs n content ->
  occurs n (insert_sources content section).
Proof.
  intros Hparen Hlast Hn.
  destruct (insert_sources_cases content section)
    as [[_ E] | [_ (a & c & b & E & Hc & E')]].
  - now rewrite E.
  - rewrite E'. rewrite E in Hn.
    eapply occurs_insert; [reflexivity | | exact Hn].
    destruct Hc as [-> | ->]; [assumption|].
    apply Hlast. exists a. exact E.
Qed.

End Keeps.

(** ** What each splice brings in *)

Lemma join_occurs sep line section :
  In line section -> occurs line (join sep section).
Proof.
  induction section as [|x rest IH]; intros Hin; [destruct Hin|].
  destruct rest as [|y rest].
  - destruct Hin as [->|[]]. apply occurs_refl.
  - change (join sep (x :: y :: rest)) with (x ++ sep ++ join sep (y :: rest)).
    destruct Hin as [->|Hin].
    + apply occurs_app_l, occurs_refl.
    + do 2 apply occurs_app_r. now apply IH.
Qed.

Lemma block_occurs line section : In line section -> occurs line (block section).
Proof. intros H. unfold block. now apply occurs_app_l, join_occurs. Qed.

Lemma name_in_file_ref_line id n : occurs n (file_ref_line id n).
Proof.
  unfold file_ref_line. exists ([TAB; TAB] ++ id ++ lit " /* ").
  eexists. rewrite <- !app_assoc. reflexivity.
Qed.

Lemma name_in_build_file_line b f n : occurs n (build_file_line b f n).
Proof.
  unfold build_file_line. exists ([TAB; TAB] ++ b ++ lit " /* ").
  eexists. rewrite <- !app_assoc. reflexivity.
Qed.

Lemma name_in_sources_line b n : occurs n (sources_line b n).
Proof.
  unfold sources_line. exists ([TAB; TAB; TAB; TAB] ++ b ++ lit " /* ").
  eexists. rewrite <- !app_assoc. reflexivity.
Qed.

(** ** Display names *)

Lemma rfind_slash s :
  forall i, 0 <= i ->
    (rfind_aux ["/"%char] s i = -1 /\ ~ In "/"%char s) \/
    (exists a b, s = a ++ "/"%char :: b /\ ~ In "/"%char b /\
                 rfind_aux ["/"%char] s i = i + len a).
Proof.
  induction s as [|c s IH]; intros i Hi.
  - left. split; [reflexivity | intros []].
  - cbn [rfind_aux]. destruct (IH (i + 1) ltac:(lia))
      as [[E Hno] | (a & b & E & Hno & Hr)].
    + rewrite E. cbn [Z.leb Z.compare prefixb]. rewrite andb_true_r.
      destruct (Ascii.eqb_spec "/"%char c) as [<-|N].
      * right. exists [], s. repeat split; [assumption | unfold len; simpl; lia].
      * left. split; [reflexivity|]. intros [H|H]; [congruence | contradiction].
    + rewrite Hr. pose proof (len_nonneg a).
      destruct (Z.leb_spec 0 (i + 1 + len a)); [|lia].
      right. exists (c :: a), b. rewrite E. repeat split; [assumption|].
      unfold len. simpl length. lia.
Qed.

(** A display name holds no slash. *)
Lemma basename_no_slash p : ~ In "/"%char (basename p).
Proof.
  unfold basename, rfind. change (lit "/") with ["/"%char].
  destruct (rfind_slash p 0 ltac:(lia)) as [[E Hno] | (a & b & E & Hno & Hr)].
  - rewrite E, slice_from. simpl (-1 + 1).
    replace (clip (len p) 0) with 0%nat; [exact Hno|].
    unfold clip. simpl (0 <? 0). cbv iota.
    pose proof (len_nonneg p). rewrite Z.min_l by lia. reflexivity.
  - rewrite Hr, E. simpl (0 + len a).
    replace (a ++ "/"%char :: b) with ((a ++ ["/"%char]) ++ b)
      by now rewrite <- app_assoc.
    replace (len a + 1) with (len (a ++ ["/"%char]))
      by (rewrite len_app; reflexivity).
    now rewrite slice_from_app.
Qed.

Lemma safe_name_spec T n :
  safe_name T n = true -> ~ In ")"%char n /\ ~ In (last T ")"%char) n.
Proof.
  unfold safe_name. intros H. apply andb_true_iff in H as [H1 H2].
  apply negb_true_iff in H1, H2.
  split; intros Hin.
  - assert (E : existsb (Ascii.eqb ")"%char) n = true)
      by (apply existsb_exists; eexists; split;
          [exact Hin | apply Ascii.eqb_refl]).
    congruence.
  - assert (E : existsb (Ascii.eqb (last T ")"%char)) n = true)
      by (apply existsb_exists; eexists; split;
          [exact Hin | apply Ascii.eqb_refl]).
    congruence.
Qed.

Lemma ends_after_record_splices T refs builds c :
  ends_with c (insert_build_files (insert_file_refs T refs) builds) ->
  last T ")"%char = c.
Proof.
  intros H. apply ends_with_last.
  eapply (insert_at_marker_ends file_ref_marker); [reflexivity|].
  eapply (insert_at_marker_ends build_file_marker); [reflexivity|].
  exact H.
Qed.

(** A safe name that occurs in the text still occurs after the splices. *)
Lemma old_names_stay T st n :
  ~ In "/"%char n -> safe_name T n = true ->
  occurs n T -> occurs n (apply_insertions T st).
Proof.
  intros Hslash Hsafe Hn. apply safe_name_spec in Hsafe as [Hparen Hlast].
  unfold apply_insertions.
  apply insert_sources_keeps; [assumption| |].
  - intros c Hc. apply ends_after_record_splices in Hc. now subst c.
  - eapply (insert_at_marker_keeps n Hslash build_file_marker); [reflexivity|].
    eapply (insert_at_marker_keeps n Hslash file_ref_marker); [reflexivity|].
    exact Hn.
Qed.

(** Once any splice applies, the name of every registered entry occurs in
    the text. *)
Lemma new_names_arrive T regs r :
  let st := fold_left stage regs empty_staging in
  apply_insertions T st <> T ->
  In r regs ->
  ~ In "/"%char (reg_name r) -> safe_name T (reg_name r) = true ->
  occurs (reg_name r) (apply_insertions T st).
Proof.
  intros st Hneq Hr Hslash Hsafe.
  apply safe_name_spec in Hsafe as [Hparen Hlast].
  assert (R1 : In (file_ref_line (reg_file_uuid r) (reg_name r))
                  (file_refs_section st)).
  { unfold st. rewrite staged_file_refs. apply in_or_app. right.
    now apply (in_map (fun r => file_ref_line (reg_file_uuid r) (reg_name r))). }
  assert (R2 : In (build_file_line (reg_build_uuid r) (reg_file_uuid r)
                                   (reg_name r))
                  (build_files_section st)).
  { unfold st. rewrite staged_build_files. apply in_or_app. right.
    now apply (in_map (fun r => build_file_line (reg_build_uuid r)
                                  (reg_file_uuid r) (reg_name r))). }
  assert (R3 : In (sources_line (reg_build_uuid r) (reg_name r))
                  (sources_build_phase st)).
  { unfold st. rewrite staged_sources. apply in_or_app. right.
    now apply (in_map (fun r => sources_line (reg_build_uuid r) (reg_name r))). }
  assert (K3 : forall c2,
             (forall c, ends_with c c2 -> last T ")"%char = c) ->
             occurs (reg_name r) c2 ->
             occurs (reg_name r) (insert_sources c2 (sources_build_phase st))).
  { intros c2 Hend H. apply insert_sources_keeps; try assumption.
    intros c Hc. apply Hend in Hc. now subst c. }
  assert (K2 : forall c1,
             occurs (reg_name r) c1 ->
             occurs (reg_name r) (insert_build_files c1 (build_files_section st))).
  { intros c1 H.
    now eapply (insert_at_marker_keeps _ Hslash build_file_marker). }
  unfold apply_insertions in *.
  set (c1 := insert_file_refs T (file_refs_section st)) in *.
  set (c2 := insert_build_files c1 (build_files_section st)) in *.
  assert (E2 : forall c, ends_with c c2 -> last T ")"%char = c)
    by (intros c; apply ends_after_record_splices).
  destruct (insert_at_marker_cases file_ref_marker T (file_refs_section st))
    as [[_ E] | [_ (a & b & _ & _ & E)]]; fold (insert_file_refs T (file_refs_section st)) in E;
    fold c1 in E.
  2:{ apply K3; [assumption|]. apply K2. rewrite E.
      apply occurs_app_r, occurs_app_l.
      eapply occurs_trans; [|apply block_occurs, R1].
      apply name_in_file_ref_line. }
  destruct (insert_at_marker_cases build_file_marker c1 (build_files_section st))
    as [[_ E'] | [_ (a & b & _ & _ & E')]];
    fold (insert_build_files c1 (build_files_section st)) in E'; fold c2 in E'.
  2:{ apply K3; [assumption|]. rewrite E'.
      apply occurs_app_r, occurs_app_l.
      eapply occurs_trans; [|apply block_occurs, R2].
      apply name_in_build_file_line. }
  destruct (insert_sources_cases c2 (sources_build_phase st))
    as [[_ E''] | [_ (a & c & b & _ & _ & E'')]].
  - exfalso. apply Hneq. now rewrite E'', E', E.
  - rewrite E''. apply occurs_app_r, occurs_app_l.
    eapply occurs_trans; [|apply block_occurs, R3].
    apply name_in_sources_line.
Qed.

(* ===================================================================== *)
(** * The properties of the specification *)
(* ===================================================================== *)

(** ** C1: a missing section marker *)

(** C1 as stated fails: with the file record marker missing the script
    does not abort; it completes and overwrites the manifest with a text
    that holds the build record of the new file but no file record. *)
Lemma missing_marker_still_writes :
  isin file_ref_marker headless_manifest = false /\
  fst (add_files [(lit "Views/X.swift", lit "Components")] headless_world)
  = Ok tt /\
  manifest (snd (add_files [(lit "Views/X.swift", lit "Components")]
                           headless_world))
  <> manifest headless_world /\
  isin (build_file_line (identity spread_entropy 1) (identity spread_entropy 0)
                        (lit "X.swift"))
       (text_after (add_files [(lit "Views/X.swift", lit "Components")])
                   headless_world) = true /\
  isin (file_ref_line (identity spread_entropy 0) (lit "X.swift"))
       (text_after (add_files [(lit "Views/X.swift", lit "Components")])
                   headless_world) = false.
Proof.
  split; [vm_compute; reflexivity|].
  split; [vm_compute; reflexivity|].
  split; [intros H; vm_compute in H; discriminate H|].
  split; vm_compute; reflexivity.
Qed.

(** C1, as the code has it.  A missing section marker does not abort the
    call: the script always completes; when at least one entry is
    registered it writes the text produced by the three splices, each of
    which is simply skipped when its anchor is not found.  The text written
    equals the input text exactly when none of the three anchors is found;
    when nothing is registered no file is written. *)
Theorem missing_marker_skips_only_its_splice :
  forall files w T,
    manifest w = Some T ->
    let regs := registrations (fs w) (entropy w) T (drawn w) files in
    let st := fold_left stage regs empty_staging in
    exists w',
      add_files files w = (Ok tt, w') /\
      (regs = [] -> fs w' = fs w) /\
      (regs <> [] ->
       exists T',
         manifest w' = Some T' /\
         inserted T T' /\
         (T' = T <-> isin file_ref_marker T = false /\
                     isin build_file_marker T = false /\
                     sources_anchor T = false) /\
         (isin file_ref_marker T = false ->
          T' = insert_sources
                 (insert_build_files T (build_files_section st))
                 (sources_build_phase st)) /\
         (isin build_file_marker
               (insert_file_refs T (file_refs_section st)) = false ->
          T' = insert_sources
                 (insert_file_refs T (file_refs_section st))
                 (sources_build_phase st))).
Proof.
  intros files w T HT regs st.
  destruct (add_files_run files w T regs HT eq_refl)
    as (w' & Hrun & Hfs & _).
  exists w'. split; [exact Hrun|]. split.
  - intros E. now rewrite E in Hfs.
  - intros Hne. exists (apply_insertions T st).
    split; [|split; [|split; [|split]]].
    + unfold manifest. rewrite Hfs. fold st.
      destruct regs; [congruence|]. unfold put.
      destruct (str_eq_dec project_file project_file); [reflexivity|easy].
    + apply apply_insertions_inserted.
    + apply apply_insertions_fixed.
    + intros E. unfold apply_insertions.
      pose proof (insert_file_refs_length T (file_refs_section st)) as H1.
      rewrite E in H1. now rewrite H1.
    + intros E. unfold apply_insertions.
      pose proof (insert_build_files_length
                    (insert_file_refs T (file_refs_section st))
                    (build_files_section st)) as H2.
      rewrite E in H2. now rewrite H2.
Qed.

Lemma missing_marker_skips_only_its_splice_witness :
  exists w',
    add_files [(lit "Views/X.swift", lit "Components")] headless_world
    = (Ok tt, w').
Proof.
  destruct (missing_marker_skips_only_its_splice
              [(lit "Views/X.swift", lit "Components")]
              headless_world headless_manifest eq_refl)
    as (w' & E & _).
  exists w'. exact E.
Defined.

(** ** C2: the group membership fragment *)




(** ** C3: the same display name twice in one call *)



(** ** C4: entries already in the manifest *)

(** C4 as stated fails: for an entry whose display name is in the manifest
    text, the generator has been invoked (twice) when the script returns. *)
Lemma skipped_entry_still_mints :
  isin (basename (lit "Views/X.swift")) registered_manifest = true /\
  manifest (snd (add_files [(lit "Views/X.swift", lit "Components")]
                           overlap_world))
  = manifest overlap_world /\
  drawn overlap_world = 0%nat /\
  drawn (snd (add_files [(lit "Views/X.swift", lit "Components")]
                        overlap_world)) = 2%nat.
Proof. vm_compute. repeat split. Qed.

(** C4, as the code has it.  An entry on disk whose display name already
    occurs in the manifest text is skipped and stages no fragment; but its
    two identities are minted before the test and then discarded, so the
    generator is invoked twice for it. *)
Theorem present_entry_is_skipped_after_minting :
  forall content file_path group_name st w,
    fs w file_path <> None ->
    isin (basename file_path) content = true ->
    exists w',
      register_entry content (file_path, group_name) st w = (Ok st, w') /\
      fs w' = fs w /\
      drawn w' = (2 + drawn w)%nat /\
      stdout w' = stdout w ++ [lit "Skipping " ++ basename file_path ++
                               lit " - already in project"] /\
      registrations (fs w) (entropy w) content (drawn w)
                    [(file_path, group_name)] = [].
Proof.
  intros content file_path group_name st w Hdisk Hin.
  eexists. split; [now apply register_entry_present|].
  cbn [fs drawn stdout advance registrations].
  apply on_disk_true in Hdisk. rewrite Hdisk, Hin. repeat split.
Qed.

Lemma present_entry_is_skipped_after_minting_witness :
  exists w',
    register_entry registered_manifest (lit "Views/X.swift", lit "Components")
      empty_staging overlap_world
    = (Ok empty_staging, w') /\
    drawn w' = 2%nat.
Proof.
  destruct (present_entry_is_skipped_after_minting
              registered_manifest (lit "Views/X.swift") (lit "Components")
              empty_staging overlap_world)
    as (w' & E & _ & D & _).
  - discriminate.
  - reflexivity.
  - exists w'. split; [exact E | exact D].
Defined.

(** ** C5: running the script twice *)


(** Why the last character of the text matters: when no [");"] follows
    the opening of the build phase list, [find] answers [-1] and the splice
    cuts before the last character of the text.  Here that cut goes through
    [Y.swift], which the first run had skipped, and the second run
    registers it. *)
Lemma unclosed_list_second_run_changes_the_text :
  find_from unclosed_manifest (lit ");")
            (find_from unclosed_manifest (lit "files = (")
                       (find unclosed_manifest sources_marker)) = -1 /\
  isin (lit "Y.swift") unclosed_manifest = true /\
  isin (lit "Y.swift")
       (text_after (add_files unclosed_files) unclosed_world) = false /\
  manifest (snd (add_files unclosed_files
                           (snd (add_files unclosed_files unclosed_world))))
  <> manifest (snd (add_files unclosed_files unclosed_world)).
Proof.
  split; [vm_compute; reflexivity|].
  split; [vm_compute; reflexivity|].
  split; [vm_compute; reflexivity|].
  intros H. apply (f_equal (option_map (@length ascii))) in H.
  vm_compute in H. discriminate H.
Qed.



(** ** C6: nothing new to register *)

(** C6.  No-op on full overlap: when the display name of every entry
    already occurs in the manifest text, the script completes, writes no
    file at all, and the manifest on disk is the input text. *)
Theorem no_op_on_full_overlap :
  forall files w T,
    manifest w = Some T ->
    (forall p g, In (p, g) files -> isin (basename p) T = true) ->
    exists w',
      add_files files w = (Ok tt, w') /\
      fs w' = fs w /\
      manifest w' = Some T.
Proof.
  intros files w T HT Hall.
  destruct (add_files_run files w T _ HT eq_refl)
    as (w' & Hrun & Hfs & _).
  rewrite registrations_all_present in Hfs by assumption.
  exists w'. repeat split; [assumption..|].
  unfold manifest in *. now rewrite Hfs.
Qed.

Lemma no_op_on_full_overlap_witness :
  exists w',
    add_files [(lit "Views/X.swift", lit "Components")] overlap_world
    = (Ok tt, w') /\
    fs w' = fs overlap_world /\
    manifest w' = Some registered_manifest.
Proof.
  apply (no_op_on_full_overlap
           [(lit "Views/X.swift", lit "Components")]
           overlap_world registered_manifest).
  - reflexivity.
  - intros p g [E|[]]. inversion E. reflexivity.
Defined.

(** ** C7: the text changes by insertions only *)



(** ** C8: the format of an identity *)

(** C8.  Every identity the generator returns is a string of exactly 24
    characters, each of them one of the uppercase hexadecimal digits
    [0-9A-F]; so it holds no separator.  The generator never raises. *)
Theorem generate_xcode_uuid_is_24_upper_hex :
  forall w : world,
    exists id w',
      generate_xcode_uuid w = (Ok id, w') /\
      length id = 24%nat /\
      forallb is_upper_hex id = true.
Proof.
  intros w. exists (identity (entropy w) (drawn w)), (tick w).
  split; [apply generate_xcode_uuid_run|].
  split; [apply UuidFacts.leading24_length | apply UuidFacts.leading24_hex].
Qed.

(** ** C9: the identities of one call *)




(** ** C10: paths that are not on disk *)

(** C10.  An entry whose path is not on disk is dropped: the loop body
    prints the warning and nothing else happens, whether or not the display
    name occurs in the manifest text (the existence test comes first), and
    the run leaves the same files and consumes the same draws as the run
    without that entry. *)
Theorem missing_path_is_dropped :
  forall before after file_path group_name w,
    fs w file_path = None ->
    (forall content st w0,
       fs w0 file_path = None ->
       register_entry content (file_path, group_name) st w0
       = (Ok st,
          advance w0 0 [lit "Warning: " ++ file_path ++ lit " does not exist"])) /\
    fs (snd (add_files (before ++ (file_path, group_name) :: after) w))
    = fs (snd (add_files (before ++ after) w)) /\
    drawn (snd (add_files (before ++ (file_path, group_name) :: after) w))
    = drawn (snd (add_files (before ++ after) w)).
Proof.
  intros before after file_path group_name w Hmiss.
  split; [intros; now apply register_entry_missing|].
  pose proof (add_files_state (before ++ (file_path, group_name) :: after) w) as H1.
  pose proof (add_files_state (before ++ after) w) as H2.
  cbv zeta in H1, H2.
  destruct (manifest w) as [T|]; [|now rewrite H1, H2].
  destruct H1 as [F1 D1], H2 as [F2 D2].
  apply on_disk_false in Hmiss.
  assert (R : registrations (fs w) (entropy w) T (drawn w)
                (before ++ (file_path, group_name) :: after)
              = registrations (fs w) (entropy w) T (drawn w) (before ++ after)).
  { rewrite !registrations_app. cbn [registrations]. now rewrite Hmiss. }
  assert (D : draws (fs w) (before ++ (file_path, group_name) :: after)
              = draws (fs w) (before ++ after)).
  { rewrite !draws_app. unfold draws at 2. cbn [filter fst].
    now rewrite Hmiss. }
  rewrite F1, F2, D1, D2, R, D. split; reflexivity.
Qed.

Lemma missing_path_is_dropped_witness :
  fs (snd (add_files [(lit "Views/X.swift", lit "Components");
                      (lit "Views/Gone.swift", lit "Components")]
                     single_world))
  = fs (snd (add_files [(lit "Views/X.swift", lit "Components")] single_world)).
Proof.
  exact (proj1 (proj2
    (missing_path_is_dropped
       [(lit "Views/X.swift", lit "Components")] []
       (lit "Views/Gone.swift") (lit "Components")
       single_world eq_refl))).
Defined.

(* ===================================================================== *)
(** * Further facts about the string operations *)
(* ===================================================================== *)

(** [find] answers the place of the first occurrence. *)
Lemma find_aux_first sub s :
  forall i,
    isin sub s = true ->
    exists u v,
      s = u ++ v /\ prefixb sub v = true /\ find_aux sub s i = i + len u /\
      forall u' v', s = u' ++ v' -> prefixb sub v' = true ->
                    (length u <= length u')%nat.
Proof.
  induction s as [|a s IH]; intros i H.
  - simpl in H. rewrite orb_false_r in H.
    exists [], []. simpl. rewrite H. unfold len. simpl.
    repeat split; [lia | intros; lia].
  - cbn [find_aux]. destruct (prefixb sub (a :: s)) eqn:Hp.
    + exists [], (a :: s). unfold len. simpl.
      repeat split; [assumption | lia | intros; lia].
    + cbn [isin] in H. rewrite Hp in H. simpl in H.
      destruct (IH (i + 1) H) as (u & v & -> & Hv & Hf & Hmin).
      exists (a :: u), v. repeat split; [assumption | |].
      * rewrite Hf. unfold len. simpl length. lia.
      * intros [|a' u'] v' E Hv'.
        -- simpl in E. subst v'. congruence.
        -- simpl in E. injection E as -> E. simpl.
           apply le_n_S. eapply Hmin; eauto.
Qed.

Lemma find_first s sub :
  isin sub s = true ->
  exists a rest, first_occurrence sub s a rest /\ find s sub = len a.
Proof.
  intros H. destruct (find_aux_first sub s 0 H) as (u & v & E & Hv & Hf & Hmin).
  destruct (prefixb_split _ _ Hv) as [rest ->].
  exists u, rest. split; [split; [exact E|] | unfold find; lia].
  intros u' v' E'. apply (Hmin u' (sub ++ v') E'), prefixb_app.
Qed.

Lemma find_from_first s sub a b :
  s = a ++ b ->
  find_from s sub (len a) <> -1 ->
  exists u rest,
    first_occurrence sub b u rest /\ find_from s sub (len a) = len (a ++ u).
Proof.
  intros -> Hne. unfold find_from in *.
  pose proof (len_nonneg a); pose proof (len_nonneg b).
  destruct (Z.ltb_spec (len a) 0); [lia|].
  rewrite len_app in *. destruct (Z.ltb_spec (len a + len b) (len a)); [lia|].
  replace (Z.to_nat (len a)) with (length a) in *
    by (unfold len; now rewrite Nat2Z.id).
  rewrite skipn_app, Nat.sub_diag, skipn_all in *. cbn [skipn app] in *.
  destruct (isin sub b) eqn:Hin.
  - destruct (find_aux_first sub b (len a) Hin) as (u & v & E & Hv & Hf & Hmin).
    destruct (prefixb_split _ _ Hv) as [rest ->].
    exists u, rest. split; [split; [exact E|] | now rewrite Hf, len_app].
    intros u' v' E'. apply (Hmin u' (sub ++ v') E'), prefixb_app.
  - now rewrite find_aux_none in Hne.
Qed.

(** An occurrence found in [m ++ r] starts after [m] when [m] does not hold
    its first character. *)
Lemma occurrence_after (m r u v : str) (c : ascii) :
  m ++ r = u ++ v -> hd_error v = Some c -> ~ In c m ->
  exists q, u = m ++ q /\ r = q ++ v.
Proof.
  intros E Hv Hc. apply app_eq_app in E as [l [[E1 E2]|[E1 E2]]].
  - destruct l as [|c' l].
    + exists []. rewrite app_nil_r in *. simpl in E2. now subst.
    + exfalso. apply Hc. rewrite E2 in Hv. simpl in Hv. injection Hv as <-.
      rewrite E1. apply in_or_app. right. now left.
  - exists l. now split.
Qed.

(* ===================================================================== *)
(** * Further properties of add_new_components_to_xcode.py *)
(* ===================================================================== *)

(** ** Where the splices go *)

Lemma insert_at_marker_first marker content section :
  isin marker content = true ->
  exists a rest,
    first_occurrence marker content a rest /\
    (if isin marker content
     then splice content (find content marker) section
     else content) = a ++ block section ++ marker ++ rest.
Proof.
  intros H. rewrite H.
  destruct (find_first content marker H) as (a & rest & Hfirst & Hf).
  exists a, rest. split; [exact Hfirst|].
  rewrite Hf. destruct Hfirst as [E _]. rewrite E at 1. apply splice_at.
Qed.

(** X1.  Each of the two record splices puts its block right before the
    first occurrence of its end marker: the text before that occurrence,
    the marker itself and all that follows are kept as they are. *)
Theorem record_splices_go_before_the_first_marker :
  forall content section,
    (isin file_ref_marker content = true ->
     exists a rest,
       first_occurrence file_ref_marker content a rest /\
       insert_file_refs content section
       = a ++ block section ++ file_ref_marker ++ rest) /\
    (isin build_file_marker content = true ->
     exists a rest,
       first_occurrence build_file_marker content a rest /\
       insert_build_files content section
       = a ++ block section ++ build_file_marker ++ rest).
Proof.
  intros content section. split; intros H.
  - apply (insert_at_marker_first file_ref_marker content section H).
  - apply (insert_at_marker_first build_file_marker content section H).
Qed.

Lemma record_splices_go_before_the_first_marker_witness :
  exists a rest,
    first_occurrence file_ref_marker example_manifest a rest /\
    insert_file_refs example_manifest [lit "line"]
    = a ++ block [lit "line"] ++ file_ref_marker ++ rest.
Proof.
  apply (proj1 (record_splices_go_before_the_first_marker
                  example_manifest [lit "line"])).
  reflexivity.
Defined.

(** The three searches of the build phase splice, when all succeed. *)
Lemma sources_searches content :
  sources_anchor content = true ->
  find_from content (lit ");")
            (find_from content (lit "files = (") (find content sources_marker))
  <> -1 ->
  exists p q r rest,
    first_occurrence sources_marker content p
      (q ++ lit "files = (" ++ r ++ lit ");" ++ rest) /\
    first_occurrence (lit "files = (")
      (sources_marker ++ q ++ lit "files = (" ++ r ++ lit ");" ++ rest)
      (sources_marker ++ q) (r ++ lit ");" ++ rest) /\
    first_occurrence (lit ");") (lit "files = (" ++ r ++ lit ");" ++ rest)
      (lit "files = (" ++ r) rest /\
    find_from content (lit ");")
              (find_from content (lit "files = (") (find content sources_marker))
    = len (p ++ sources_marker ++ q ++ lit "files = (" ++ r).
Proof.
  unfold sources_anchor. intros Ha Hclose.
  apply andb_true_iff in Ha as [Hin Hfiles]. apply negb_true_iff in Hfiles.
  apply Z.eqb_neq in Hfiles.
  destruct (find_first content sources_marker Hin)
    as (p & rest0 & [E0 Hmin0] & Hf0).
  rewrite Hf0 in *.
  destruct (find_from_first content (lit "files = (") p (sources_marker ++ rest0)
              E0 Hfiles) as (u1 & rest1 & [E1 Hmin1] & Hf1).
  rewrite Hf1 in *.
  destruct (occurrence_after sources_marker rest0 u1
              (lit "files = (" ++ rest1) "f"%char E1 eq_refl)
    as (q & -> & Eq).
  { vm_compute. intuition discriminate. }
  assert (E1' : content = (p ++ sources_marker ++ q) ++ lit "files = (" ++ rest1).
  { rewrite E0, Eq. now rewrite <- !app_assoc. }
  destruct (find_from_first content (lit ");") (p ++ sources_marker ++ q)
              (lit "files = (" ++ rest1) E1' Hclose)
    as (u2 & rest & [E2 Hmin2] & Hf2).
  destruct (occurrence_after (lit "files = (") rest1 u2
              (lit ");" ++ rest) ")"%char E2 eq_refl)
    as (r & -> & Er).
  { vm_compute. intuition discriminate. }
  subst rest1 rest0.
  exists p, q, r, rest. repeat split.
  - exact E0.
  - exact Hmin0.
  - exact Hmin1.
  - exact Hmin2.
  - rewrite Hf2. now rewrite <- !app_assoc.
Qed.

(** X2.  When the build phase marker, then the opening of a list, then a
    closing [");"] are found, the build phase splice puts its block right
    before that closing token, that is at the end of the list, and keeps
    everything else. *)
Theorem build_phase_splice_goes_before_the_closing_token :
  forall content section,
    sources_anchor content = true ->
    find_from content (lit ");")
              (find_from content (lit "files = (") (find content sources_marker))
    <> -1 ->
    exists p q r rest,
      first_occurrence sources_marker content p
        (q ++ lit "files = (" ++ r ++ lit ");" ++ rest) /\
      first_occurrence (lit "files = (")
        (sources_marker ++ q ++ lit "files = (" ++ r ++ lit ");" ++ rest)
        (sources_marker ++ q) (r ++ lit ");" ++ rest) /\
      first_occurrence (lit ");") (lit "files = (" ++ r ++ lit ");" ++ rest)
        (lit "files = (" ++ r) rest /\
      insert_sources content section
      = p ++ sources_marker ++ q ++ lit "files = (" ++ r ++
        block section ++ lit ");" ++ rest.
Proof.
  intros content section Ha Hclose.
  destruct (sources_searches content Ha Hclose)
    as (p & q & r & rest & H1 & H2 & H3 & Hf).
  exists p, q, r, rest. repeat split; try apply H1; try apply H2; try apply H3.
  unfold insert_sources. unfold sources_anchor in Ha.
  apply andb_true_iff in Ha as [-> Hfiles]. rewrite Hfiles, Hf.
  destruct H1 as [E _]. rewrite E at 1.
  replace (p ++ sources_marker ++ q ++ lit "files = (" ++ r ++ lit ");" ++ rest)
    with ((p ++ sources_marker ++ q ++ lit "files = (" ++ r) ++ lit ");" ++ rest)
    by now rewrite <- !app_assoc.
  rewrite splice_at. now rewrite <- !app_assoc.
Qed.

Lemma build_phase_splice_goes_before_the_closing_token_witness :
  exists p q r rest,
    first_occurrence sources_marker example_manifest p
      (q ++ lit "files = (" ++ r ++ lit ");" ++ rest) /\
    insert_sources example_manifest [lit "line"]
    = p ++ sources_marker ++ q ++ lit "files = (" ++ r ++
      block [lit "line"] ++ lit ");" ++ rest.
Proof.
  destruct (build_phase_splice_goes_before_the_closing_token
              example_manifest [lit "line"])
    as (p & q & r & rest & H1 & _ & _ & E).
  - reflexivity.
  - vm_compute. discriminate.
  - exists p, q, r, rest. split; [exact H1 | exact E].
Defined.



(** ** What the script prints *)

Lemma register_loop_report content files :
  forall st w,
    for_each files (register_entry content) st w
    = (Ok (fold_left stage
             (registrations (fs w) (entropy w) content (drawn w) files) st),
       advance w (draws (fs w) files) (map (report_line (fs w) content) files)).
Proof.
  induction files as [|[file_path group_name] rest IH]; intros st w.
  - unfold advance, draws; simpl. rewrite app_nil_r. now destruct w.
  - cbn [for_each registrations map report_line]. unfold bind.
    destruct (on_disk (fs w) file_path) eqn:D.
    + apply on_disk_true in D as D'.
      destruct (isin (basename file_path) content) eqn:Hin.
      * rewrite register_entry_present by assumption.
        rewrite IH, advance_advance. cbn [fs entropy drawn advance].
        unfold draws. cbn [filter fst]. rewrite D. cbn [length].
        rewrite Nat.add_comm. f_equal. f_equal. lia.
      * rewrite register_entry_new by assumption.
        rewrite IH, advance_advance. cbn [fs entropy drawn advance fold_left].
        unfold draws. cbn [filter fst]. rewrite D. cbn [length].
        rewrite Nat.add_comm. f_equal. f_equal. lia.
    + apply on_disk_false in D as D'.
      rewrite register_entry_missing by assumption.
      rewrite IH, advance_advance. cbn [fs entropy drawn advance].
      unfold draws. cbn [filter fst]. rewrite D.
      rewrite Nat.add_0_r. reflexivity.
Qed.

Lemma print_each_run (f : str -> str) files w :
  for_each files (fun file_entry _ => print (f file_entry)) tt w
  = (Ok tt, advance w 0 (map f files)).
Proof.
  revert w; induction files as [|x rest IH]; intros w.
  - unfold advance; simpl. rewrite app_nil_r. now destruct w.
  - cbn [for_each map]. unfold bind. rewrite print_run, IH, advance_advance.
    reflexivity.
Qed.

Lemma print_group_hints_run gc w :
  print_group_hints gc w = (Ok tt, advance w 0 (flat_map hint_lines gc)).
Proof.
  unfold print_group_hints. revert w.
  induction gc as [|[group files] rest IH]; intros w.
  - unfold advance; simpl. rewrite app_nil_r. now destruct w.
  - cbn [for_each flat_map hint_lines fst snd]. unfold bind at 1.
    unfold bind at 1. rewrite print_run, print_each_run, advance_advance.
    rewrite IH, advance_advance. reflexivity.
Qed.

(** X4.  The console report of a run.  The loop prints exactly one line for
    every entry, in order: the warning, the skip notice or the adding
    notice.  Then, when nothing was registered, the script prints that
    there is nothing to add; otherwise it prints the success line with the
    number of registered entries, whether or not any splice found its
    anchor, then the note and the group hints. *)
Theorem console_report_of_a_run :
  forall files w T,
    manifest w = Some T ->
    let regs := registrations (fs w) (entropy w) T (drawn w) files in
    let st := fold_left stage regs empty_staging in
    stdout (snd (add_files files w))
    = stdout w ++ map (report_line (fs w) T) files ++ closing_report st /\
    length (file_refs_section st)
    = length (filter (fun e => on_disk (fs w) (fst e) &&
                               negb (isin (basename (fst e)) T)) files).
Proof.
  intros files w T HT regs st. split.
  - unfold manifest in HT. unfold add_files, bind at 1, read_file. rewrite HT.
    unfold bind at 1. rewrite register_loop_report. fold regs. fold st.
    unfold closing_report.
    destruct (file_refs_section st) as [|l ls] eqn:E.
    + rewrite print_run. cbn [snd stdout advance]. now rewrite <- app_assoc.
    + unfold bind at 1, write_file. unfold bind at 1. rewrite print_run.
      unfold bind at 1. rewrite print_run, print_group_hints_run.
      cbn [snd stdout advance]. now rewrite <- !app_assoc.
  - unfold st. rewrite staged_file_refs. cbn [empty_staging file_refs_section app].
    rewrite length_map. unfold regs.
    rewrite <- (length_map reg_name), registrations_names. apply length_map.
Qed.

Lemma console_report_of_a_run_witness :
  stdout (snd (add_files [(lit "Views/X.swift", lit "Components")] headless_world))
  = [ lit "Adding: X.swift to Components group";
      [NL] ++ lit "Successfully added 1 files to Xcode project";
      [NL] ++ lit "Note: You may need to manually organize files into groups in Xcode";
      [NL] ++ lit "Files for Components group:";
      lit "  " ++ group_child_line (identity spread_entropy 0) (lit "X.swift") ].
Proof.
  rewrite (proj1 (console_report_of_a_run
                    [(lit "Views/X.swift", lit "Components")]
                    headless_world headless_manifest eq_refl)).
  vm_compute. reflexivity.
Defined.

(** ** The group hints *)

Lemma dict_get_append_child_same gc group line :
  dict_get (append_child gc group line) group
  = Some (match dict_get gc group with
          | Some l => l ++ [line]
          | None => [line]
          end).
Proof.
  unfold append_child. destruct (dict_get gc group) as [l|] eqn:E.
  - now rewrite E, dict_get_set_same.
  - now rewrite dict_get_set_same, dict_get_set_same.
Qed.

Lemma dict_get_append_child_other gc group line group' :
  group <> group' ->
  dict_get (append_child gc group line) group' = dict_get gc group'.
Proof.
  intros N. unfold append_child. destruct (dict_get gc group) as [l|] eqn:E.
  - now rewrite E, dict_get_set_other.
  - now rewrite dict_get_set_same, !dict_get_set_other.
Qed.

Lemma staged_children group regs :
  forall st,
    dict_get (group_children (fold_left stage regs st)) group
    = match dict_get (group_children st) group with
      | Some l => Some (l ++ children_of group regs)
      | None => match children_of group regs with
                | [] => None
                | l => Some l
                end
      end.
Proof.
  induction regs as [|r regs IH]; intros st.
  - cbn. destruct (dict_get (group_children st) group); [|reflexivity].
    now rewrite app_nil_r.
  - cbn [fold_left]. rewrite IH. cbn [stage group_children].
    unfold children_of. cbn [filter].
    destruct (str_eq_dec (reg_group r) group) as [E|N].
    + rewrite E, dict_get_append_child_same. cbn [map].
      destruct (dict_get (group_children st) group) as [l|].
      * now rewrite <- app_assoc.
      * reflexivity.
    + rewrite dict_get_append_child_other by assumption. reflexivity.
Qed.

(** X5.  What [group_children] holds when the loop ends: under each group
    name exactly the group lines of the entries registered for that group,
    in the order of registration, and no key for a group without a
    registered entry. *)
Theorem group_children_after_the_loop :
  forall files w T,
    exists st w',
      for_each files (register_entry T) empty_staging w = (Ok st, w') /\
      forall group,
        dict_get (group_children st) group
        = match children_of group
                  (registrations (fs w) (entropy w) T (drawn w) files) with
          | [] => None
          | l => Some l
          end.
Proof.
  intros files w T. do 2 eexists. split; [apply register_loop_report|].
  intros group. now rewrite staged_children.
Qed.

(** ** Failure *)


(* ===================================================================== *)
(** * Further properties of add_quick_components.py *)
(* ===================================================================== *)

Lemma isin_cons_false sub c s :
  isin sub (c :: s) = false -> prefixb sub (c :: s) = false /\ isin sub s = false.
Proof. cbn [isin]. intros H. now apply orb_false_iff in H. Qed.

(** Where [old] does not occur, [replace] changes nothing. *)
Lemma replace_scan_none old new fuel :
  forall s, isin old s = false -> replace_scan fuel old new s = s.
Proof.
  induction fuel as [|f IH]; intros s H; [reflexivity|].
  cbn [replace_scan]. destruct s as [|c s].
  - simpl in H. rewrite orb_false_r in H. now rewrite H.
  - apply isin_cons_false in H as [-> H]. now rewrite IH.
Qed.

(** Where [old] occurs, [replace] brings in [new] and makes the text longer
    by at least what [new] adds to [old]. *)
Lemma replace_scan_some c old x fuel :
  forall s,
    isin (c :: old) s = true -> (length s <= fuel)%nat ->
    occurs x (replace_scan fuel (c :: old) (x ++ c :: old) s) /\
    (length s + length x
     <= length (replace_scan fuel (c :: old) (x ++ c :: old) s))%nat.
Proof.
  induction fuel as [|f IH]; intros s H Hf.
  - destruct s; [discriminate H | simpl in Hf; lia].
  - cbn [replace_scan]. destruct (prefixb (c :: old) s) eqn:Hp.
    + destruct (prefixb_split _ _ Hp) as [r ->].
      rewrite skipn_app, Nat.sub_diag, skipn_all. cbn [skipn app].
      split.
      * apply occurs_app_l. now exists [], (c :: old).
      * pose proof (inserted_length _ _
                      (replace_scan_inserted (c :: old) x f r)) as L.
        rewrite !length_app in *. cbn [length] in *.
        rewrite ?length_app in *. lia.
    + destruct s as [|c' s]; [discriminate H|].
      cbn [isin] in H. rewrite Hp in H. cbn [orb] in H.
      simpl in Hf. destruct (IH s H ltac:(lia)) as [Ho Hl].
      split; [now apply (occurs_app_r x [c']) | simpl; lia].
Qed.

Lemma find_found_isin s sub : negb (find s sub =? -1) = isin sub s.
Proof.
  destruct (find_cases s sub) as [[H E] | [H (a & b & _ & _ & E)]];
    rewrite H, E; [reflexivity|].
  pose proof (len_nonneg a). destruct (Z.eqb_spec (len a) (-1)); [lia|].
  reflexivity.
Qed.

(** The three steps of [Quick.patch], one after the other. *)
Lemma quick_record_step content c marker line :
  if isin (c :: marker) content
  then occurs line (replace content (c :: marker) (line ++ [NL] ++ c :: marker)) /\
       (length content
        < length (replace content (c :: marker) (line ++ [NL] ++ c :: marker)))%nat
  else replace content (c :: marker) (line ++ [NL] ++ c :: marker) = content.
Proof.
  unfold replace. destruct (isin (c :: marker) content) eqn:H.
  - rewrite (app_assoc line [NL] (c :: marker)).
    destruct (replace_scan_some c marker (line ++ [NL])
                (length content) content H (le_n _)) as [Ho Hl].
    split.
    + eapply occurs_trans; [|exact Ho]. apply occurs_app_l, occurs_refl.
    + rewrite length_app in Hl. simpl in Hl. lia.
  - now apply replace_scan_none.
Qed.

(** [Quick.patch] is two replacements followed by the build phase splice of
    the patcher, for the one line of the new file. *)
Lemma quick_patch_unfold T :
  Quick.patch T
  = insert_sources
      (replace
         (replace T file_ref_marker
                  (file_ref_line Quick.file_uuid Quick.filename ++ [NL] ++
                   file_ref_marker))
         build_file_marker
         (build_file_line Quick.build_uuid Quick.file_uuid Quick.filename ++
          [NL] ++ build_file_marker))
      [sources_line Quick.build_uuid Quick.filename].
Proof.
  unfold Quick.patch, insert_sources.
  set (c2 := replace (replace T _ _) _ _).
  rewrite <- (find_found_isin c2 sources_marker).
  destruct (negb (find c2 sources_marker =? -1)); [|reflexivity].
  destruct (negb (find_from c2 _ _ =? -1)); reflexivity.
Qed.

Lemma quick_patch_steps T :
  (Quick.patch T = T /\
   isin file_ref_marker T = false /\ isin build_file_marker T = false /\
   sources_anchor T = false) \/
  (occurs Quick.filename (Quick.patch T) /\
   (length T < length (Quick.patch T))%nat).
Proof.
  rewrite quick_patch_unfold.
  set (fr := file_ref_line Quick.file_uuid Quick.filename).
  set (bf := build_file_line Quick.build_uuid Quick.file_uuid Quick.filename).
  set (sl := sources_line Quick.build_uuid Quick.filename).
  pose proof (quick_record_step T "/"%char
                (lit "* End PBXFileReference section */") fr) as S1.
  change ("/"%char :: lit "* End PBXFileReference section */")
    with file_ref_marker in S1.
  set (c1 := replace T file_ref_marker (fr ++ [NL] ++ file_ref_marker)) in *.
  pose proof (quick_record_step c1 "/"%char
                (lit "* End PBXBuildFile section */") bf) as S2.
  change ("/"%char :: lit "* End PBXBuildFile section */")
    with build_file_marker in S2.
  set (c2 := replace c1 build_file_marker (bf ++ [NL] ++ build_file_marker)) in *.
  assert (L1 : (length T <= length c1)%nat).
  { destruct (isin file_ref_marker T); [lia | now rewrite S1]. }
  assert (L2 : (length c1 <= length c2)%nat).
  { destruct (isin build_file_marker c1); [lia | now rewrite S2]. }
  destruct (insert_sources_cases c2 [sl])
    as [[A3 E3] | [A3 (a & c & b & E & _ & E3)]].
  - rewrite E3.
    destruct (isin build_file_marker c1) eqn:H2.
    + right. destruct S2 as [Ho Hl]. split; [|lia].
      eapply occurs_trans; [apply name_in_build_file_line | exact Ho].
    + rewrite S2 in *.
      destruct (isin file_ref_marker T) eqn:H1.
      * right. destruct S1 as [Ho Hl]. split; [|lia].
        eapply occurs_trans; [apply name_in_file_ref_line | exact Ho].
      * left. rewrite S1 in *. auto.
  - right. rewrite E3. split.
    + apply occurs_app_r, occurs_app_l.
      eapply occurs_trans; [apply name_in_sources_line|].
      apply block_occurs. now left.
    + assert (length c2 < length (a ++ block [sl] ++ c :: b))%nat; [|lia].
      rewrite E. pose proof (block_length [sl]). rewrite !length_app. lia.
Qed.

(** X7.  add_quick_components.py is idempotent: a second run leaves every
    file as the first run left it.  Either the first run inserted a line,
    which holds the file name, so that the second run stops at its test;
    or no anchor was found and both runs write the text back unchanged. *)
Theorem quick_components_second_run_changes_nothing :
  forall w p,
    fs (snd (Quick.main (snd (Quick.main w)))) p = fs (snd (Quick.main w)) p.
Proof.
  intros w p. unfold Quick.main at 2 3, bind, read_file.
  destruct (fs w project_file) as [T|] eqn:HT.
  2:{ cbn [snd]. unfold Quick.main, bind, read_file. now rewrite HT. }
  destruct (isin Quick.filename T) eqn:Hin.
  - rewrite print_run. cbn [snd].
    unfold Quick.main, bind, read_file. cbn [fs advance]. rewrite HT, Hin.
    rewrite print_run. reflexivity.
  - unfold write_file. rewrite print_run. cbn [snd].
    unfold Quick.main, bind, read_file. cbn [fs advance].
    destruct (str_eq_dec project_file project_file) as [_|N]; [|easy].
    destruct (isin Quick.filename (Quick.patch T)) eqn:Hin'.
    + rewrite print_run. reflexivity.
    + unfold write_file. rewrite print_run. cbn [snd fs advance].
      destruct (quick_patch_steps T) as [(E & _) | (Ho & _)].
      * rewrite !E. now destruct (str_eq_dec p project_file).
      * apply occurs_isin in Ho. congruence.
Qed.

(** X8.  When the file name is not yet in the manifest, the quick script
    writes the patched text and reports the file as added in every case:
    it mints nothing, and the text it writes is the input text exactly
    when neither end marker nor the build phase list is found. *)
Theorem quick_components_reports_added_in_every_case :
  forall w T,
    manifest w = Some T ->
    isin Quick.filename T = false ->
    exists w',
      Quick.main w = (Ok tt, w') /\
      stdout w' = stdout w ++ [lit "Added QuickComponents.swift to project"] /\
      drawn w' = drawn w /\
      manifest w' = Some (Quick.patch T) /\
      (Quick.patch T = T <->
       isin file_ref_marker T = false /\
       isin build_file_marker T = false /\
       sources_anchor T = false).
Proof.
  intros w T HT Hin. unfold manifest in HT.
  unfold Quick.main, bind, read_file. rewrite HT, Hin.
  unfold write_file. rewrite print_run. eexists. split; [reflexivity|].
  unfold manifest. cbn [fs stdout drawn advance].
  destruct (str_eq_dec project_file project_file) as [_|N]; [|easy].
  split; [reflexivity|]. split; [reflexivity|]. split; [reflexivity|]. split.
  - intros E. destruct (quick_patch_steps T) as [(_ & H) | (_ & L)]; [exact H|].
    rewrite E in L. lia.
  - intros (H1 & H2 & H3). rewrite quick_patch_unfold.
    pose proof (quick_record_step T "/"%char
                  (lit "* End PBXFileReference section */")
                  (file_ref_line Quick.file_uuid Quick.filename)) as S1.
    change ("/"%char :: lit "* End PBXFileReference section */")
      with file_ref_marker in S1.
    rewrite H1 in S1. rewrite S1.
    pose proof (quick_record_step T "/"%char
                  (lit "* End PBXBuildFile section */")
                  (build_file_line Quick.build_uuid Quick.file_uuid
                                   Quick.filename)) as S2.
    change ("/"%char :: lit "* End PBXBuildFile section */")
      with build_file_marker in S2.
    rewrite H2 in S2. rewrite S2.
    pose proof (insert_sources_length T
                  [sources_line Quick.build_uuid Quick.filename]) as S3.
    now rewrite H3 in S3.
Qed.

Lemma quick_components_reports_added_in_every_case_witness :
  exists w',
    Quick.main single_world = (Ok tt, w') /\
    stdout w' = [lit "Added QuickComponents.swift to project"].
Proof.
  destruct (quick_components_reports_added_in_every_case
              single_world example_manifest eq_refl eq_refl)
    as (w' & E & Hout & _).
  exists w'. split; [exact E | exact Hout].
Defined.

(** ** The quick script and the patcher *)

Lemma count_starts_app_r sub u v :
  (count_starts sub v <= count_starts sub (u ++ v))%nat.
Proof.
  induction u as [|c u IH]; [simpl; lia|]. cbn [app count_starts].
  destruct (prefixb sub (c :: u ++ v)); lia.
Qed.

Lemma count_starts_isin sub s :
  isin sub s = true -> (1 <= count_starts sub s)%nat.
Proof.
  induction s as [|c s IH]; cbn [isin count_starts]; intros H.
  - rewrite orb_false_r in H. rewrite H. lia.
  - destruct (prefixb sub (c :: s)); [lia|]. simpl in H.
    specialize (IH H). lia.
Qed.

(** A marker that starts at one place only does not occur again after its
    first occurrence. *)
Lemma no_second_occurrence c old s a rest :
  (count_starts (c :: old) s <= 1)%nat ->
  s = a ++ (c :: old) ++ rest ->
  isin (c :: old) rest = false.
Proof.
  intros Hc ->. destruct (isin (c :: old) rest) eqn:H; [|reflexivity].
  apply count_starts_isin in H.
  pose proof (count_starts_app_r (c :: old) a ((c :: old) ++ rest)) as H1.
  pose proof (count_starts_app_r (c :: old) old rest) as H2.
  assert (E1 : count_starts (c :: old) ((c :: old) ++ rest)
               = S (count_starts (c :: old) (old ++ rest))).
  { change ((c :: old) ++ rest) with (c :: (old ++ rest)) at 1.
    cbn [count_starts].
    change (c :: old ++ rest) with ((c :: old) ++ rest).
    now rewrite prefixb_app. }
  lia.
Qed.

Lemma replace_scan_skip old new a tail :
  (forall a1 a2, a = a1 ++ a2 -> a2 <> [] -> prefixb old (a2 ++ tail) = false) ->
  forall fuel,
    replace_scan (length a + fuel) old new (a ++ tail)
    = a ++ replace_scan fuel old new tail.
Proof.
  induction a as [|c a IH]; intros H fuel; [reflexivity|].
  cbn [length Nat.add app replace_scan].
  pose proof (H [] (c :: a) eq_refl ltac:(discriminate)) as Hp.
  cbn [app] in Hp. rewrite Hp.
  f_equal. apply IH. intros a1 a2 -> Hne. apply (H (c :: a1) a2); auto.
Qed.

(** With one occurrence only, replacing the marker by a line and the
    marker is the insertion of that line before the first occurrence. *)
Lemma replace_agrees_with_splice content c marker line :
  (count_starts (c :: marker) content <= 1)%nat ->
  replace content (c :: marker) (line ++ [NL] ++ c :: marker)
  = if isin (c :: marker) content
    then splice content (find content (c :: marker)) [line]
    else content.
Proof.
  intros Hc. unfold replace. destruct (isin (c :: marker) content) eqn:H.
  2:{ now apply replace_scan_none. }
  destruct (find_first content (c :: marker) H) as (a & rest & [E Hmin] & Hf).
  rewrite Hf. rewrite E at 3. rewrite splice_at.
  pose proof (no_second_occurrence c marker content a rest Hc E) as Hno.
  rewrite E at 1 2. rewrite length_app.
  rewrite replace_scan_skip.
  - cbn [app length Nat.add replace_scan].
    change (c :: marker ++ rest) with ((c :: marker) ++ rest).
    rewrite prefixb_app.
    change (S (length marker)) with (length (c :: marker)).
    rewrite skipn_app, Nat.sub_diag, skipn_all. cbn [skipn app].
    rewrite replace_scan_none by assumption.
    unfold block. cbn [join]. now rewrite <- !app_assoc.
  - intros a1 a2 -> Hne.
    destruct (prefixb (c :: marker) (a2 ++ (c :: marker) ++ rest)) eqn:Hp;
      [|reflexivity].
    exfalso. destruct (prefixb_split _ _ Hp) as [v Ev].
    assert (E' : content = a1 ++ (c :: marker) ++ v)
      by (rewrite E, <- app_assoc, Ev; reflexivity).
    specialize (Hmin a1 v E'). rewrite length_app in Hmin.
    destruct a2; [congruence | simpl in Hmin; lia].
Qed.

(** X9.  The quick script and the patcher agree: when each end marker
    starts at one place at most, the text the quick script writes is the
    text the three splices of the patcher give for the one registration of
    [QuickComponents.swift] with the two fixed identities. *)
Theorem quick_patch_agrees_with_the_patcher :
  forall T,
    (count_starts file_ref_marker T <= 1)%nat ->
    (count_starts build_file_marker
       (insert_file_refs T [file_ref_line Quick.file_uuid Quick.filename])
     <= 1)%nat ->
    Quick.patch T = apply_insertions T (stage empty_staging quick_registration).
Proof.
  intros T H1 H2. rewrite quick_patch_unfold. unfold apply_insertions.
  cbn [stage empty_staging quick_registration file_refs_section
       build_files_section sources_build_phase reg_name reg_file_uuid
       reg_build_uuid app].
  change file_ref_marker with ("/"%char :: lit "* End PBXFileReference section */") at 1 2.
  rewrite replace_agrees_with_splice by exact H1.
  change ("/"%char :: lit "* End PBXFileReference section */") with file_ref_marker.
  fold (insert_file_refs T [file_ref_line Quick.file_uuid Quick.filename]).
  change build_file_marker with ("/"%char :: lit "* End PBXBuildFile section */") at 1 2.
  rewrite replace_agrees_with_splice by exact H2.
  reflexivity.
Qed.

Lemma quick_patch_agrees_with_the_patcher_witness :
  Quick.patch example_manifest
  = apply_insertions example_manifest (stage empty_staging quick_registration).
Proof.
  apply quick_patch_agrees_with_the_patcher; vm_compute; lia.
Defined.

(* ===================================================================== *)
(** * Further properties of the display name and of the identities *)
(* ===================================================================== *)

Lemma rfind_no_slash s :
  forall i, ~ In "/"%char s -> rfind_aux ["/"%char] s i = -1.
Proof.
  induction s as [|c s IH]; intros i H; [reflexivity|].
  cbn [rfind_aux]. rewrite IH by (intros K; apply H; now right).
  cbn [Z.leb Z.compare prefixb]. rewrite andb_true_r.
  destruct (Ascii.eqb_spec "/"%char c) as [<-|N]; [|reflexivity].
  exfalso. apply H. now left.
Qed.

Lemma rfind_last_slash dir name :
  ~ In "/"%char name ->
  forall i, 0 <= i ->
    rfind_aux ["/"%char] (dir ++ "/"%char :: name) i = i + len dir.
Proof.
  intros Hname. induction dir as [|c dir IH]; intros i Hi.
  - cbn [app rfind_aux]. rewrite rfind_no_slash by assumption.
    cbn. unfold len. simpl. lia.
  - cbn [app rfind_aux]. rewrite IH by lia.
    pose proof (len_nonneg dir).
    destruct (Z.leb_spec 0 (i + 1 + len dir)); [|lia].
    unfold len. simpl length. lia.
Qed.

(** X10.  The display name of an entry is the last segment of its path:
    what follows the last slash, or the whole path when it has none.  So
    entries that differ in their directories only share one display name. *)
Theorem display_name_is_the_last_segment :
  forall dir name,
    ~ In "/"%char name ->
    basename (dir ++ lit "/" ++ name) = name /\ basename name = name.
Proof.
  intros dir name Hname. unfold basename, rfind. change (lit "/") with ["/"%char].
  split.
  - cbn [app]. rewrite rfind_last_slash by (assumption || lia).
    replace (dir ++ "/"%char :: name) with ((dir ++ ["/"%char]) ++ name)
      by now rewrite <- app_assoc.
    replace (0 + len dir + 1) with (len (dir ++ ["/"%char]))
      by (rewrite len_app; reflexivity).
    apply slice_from_app.
  - rewrite rfind_no_slash by assumption. apply (slice_from_app [] name).
Qed.

Lemma display_name_is_the_last_segment_witness :
  basename (lit "Features/Nutrition" ++ lit "/" ++ lit "NutritionModels.swift")
  = lit "NutritionModels.swift".
Proof.
  apply (display_name_is_the_last_segment
           (lit "Features/Nutrition") (lit "NutritionModels.swift")).
  vm_compute. intuition discriminate.
Defined.

Module VersionFacts.
Import Uuid IdentityFacts.

(** One bit of a version 4 UUID. *)
Lemma uuid4_bit r n :
  Z.testbit (uuid4 r) n
  = ((Z.testbit (r mod 2 ^ 128) n &&
      Z.testbit (Z.lnot (Z.shiftl 49152 48)) n ||
      Z.testbit (Z.shiftl 32768 48) n) &&
     Z.testbit (Z.lnot (Z.shiftl 61440 64)) n ||
     Z.testbit (Z.shiftl 4 76) n)%bool.
Proof.
  unfold uuid4. now rewrite Z.lor_spec, Z.land_spec, Z.lor_spec, Z.land_spec.
Qed.

Lemma nibble_high_bits u k n : 4 <= n -> Z.testbit (nibble u k) n = false.
Proof.
  intros Hn. unfold nibble. rewrite Z.land_spec.
  rewrite (Z.bits_above_log2 15 n); [apply andb_false_r | lia |].
  change (Z.log2 15) with 3. lia.
Qed.

(** The version digit is 4. *)
Lemma version_nibble r : nibble (uuid4 r) 19 = 4.
Proof.
  apply Z.bits_inj'. intros n Hn.
  destruct (Z.lt_ge_cases n 4) as [Hlt|Hge].
  - rewrite nibble_testbit by lia. rewrite uuid4_bit.
    assert (n = 0 \/ n = 1 \/ n = 2 \/ n = 3) as [->|[->|[->| ->]]] by lia;
      cbn [Z.of_nat Pos.of_succ_nat Pos.succ Z.mul Pos.mul Pos.add Z.add];
      match goal with
      | |- context [Z.testbit (?r mod ?m) ?k] =>
          generalize (Z.testbit (r mod m) k)
      end; intros b; destruct b; vm_compute; reflexivity.
  - rewrite nibble_high_bits by assumption.
    symmetry. apply Z.bits_above_log2; [lia|]. change (Z.log2 4) with 2. lia.
Qed.

(** The variant digit has its two high bits set to one and zero. *)
Lemma variant_nibble r :
  Z.testbit (nibble (uuid4 r) 15) 3 = true /\
  Z.testbit (nibble (uuid4 r) 15) 2 = false.
Proof.
  rewrite !nibble_testbit by lia. rewrite !uuid4_bit.
  cbn [Z.of_nat Pos.of_succ_nat Pos.succ Z.mul Pos.mul Pos.add Z.add].
  split;
    match goal with
    | |- context [Z.testbit (?r mod ?m) ?k] =>
        generalize (Z.testbit (r mod m) k)
    end; intros b; destruct b; vm_compute; reflexivity.
Qed.

End VersionFacts.

(** X11.  Every identity shows the marks of a version 4 UUID: its
    thirteenth character is [4] and its seventeenth is one of [8], [9],
    [A] and [B], so that six of its 96 bits are fixed. *)
Theorem identity_shows_version_and_variant :
  forall w,
    exists id w',
      generate_xcode_uuid w = (Ok id, w') /\
      nth_error id 12 = Some "4"%char /\
      exists c, nth_error id 16 = Some c /\
                In c ["8"%char; "9"%char; "A"%char; "B"%char].
Proof.
  intros w. do 2 eexists. split; [apply generate_xcode_uuid_run|].
  unfold identity, leading24.
  set (u := Uuid.uuid4 (entropy w (drawn w))).
  split.
  - cbn [seq map nth_error Nat.sub].
    unfold u. rewrite VersionFacts.version_nibble. reflexivity.
  - cbn [seq map nth_error Nat.sub]. eexists. split; [reflexivity|].
    destruct (VersionFacts.variant_nibble (entropy w (drawn w))) as [B3 B2].
    fold u in B3, B2.
    pose proof (UuidFacts.nibble_range u 15) as R.
    revert R B3 B2. generalize (Uuid.nibble u 15). intros d R B3 B2.
    UuidFacts.enum16 d; try discriminate B3; try discriminate B2;
      vm_compute; auto.
Qed.

(* ===================================================================== *)
(** * The script as shipped *)
(* ===================================================================== *)

(** Running twice, with the condition on the names asked only of the
    entries that are on disk. *)
Lemma second_run_fixed :
  forall files w,
    (forall T p g, manifest w = Some T -> In (p, g) files ->
                   on_disk (fs w) p = true ->
                   safe_name T (basename p) = true) ->
    manifest (snd (add_files files (snd (add_files files w))))
    = manifest (snd (add_files files w)) /\
    forall p, fs (snd (add_files files (snd (add_files files w)))) p
              = fs (snd (add_files files w)) p.
Proof.
  intros files w Hsafe.
  assert (Goal : forall p, fs (snd (add_files files (snd (add_files files w)))) p
                           = fs (snd (add_files files w)) p);
    [|split; [apply Goal | exact Goal]].
  destruct (manifest w) as [T|] eqn:HT.
  2:{ rewrite (add_files_no_manifest _ _ HT). cbn [snd].
      now rewrite (add_files_no_manifest _ _ HT). }
  specialize (Hsafe T).
  destruct (add_files_run files w T _ HT eq_refl)
    as (w1 & -> & Hfs1 & Hent1 & Hd1 & _).
  cbn [snd].
  set (regs := registrations (fs w) (entropy w) T (drawn w) files) in *.
  set (st := fold_left stage regs empty_staging) in *.
  destruct regs as [|r0 regs0] eqn:Eregs.
  - (* nothing registered: nothing written, and the second run is the same *)
    assert (HT1 : manifest w1 = Some T) by (unfold manifest; now rewrite Hfs1).
    destruct (add_files_run files w1 T _ HT1 eq_refl)
      as (w2 & -> & Hfs2 & _).
    cbn [snd]. rewrite Hfs2.
    assert (N : registrations (fs w1) (entropy w1) T (drawn w1) files = []).
    { apply map_eq_nil with (f := reg_name).
      rewrite registrations_names, Hfs1, <- registrations_names with
        (rnd := entropy w) (k := drawn w).
      fold regs. now rewrite Eregs. }
    now rewrite N.
  - set (T' := apply_insertions T st) in *.
    assert (Hpf : fs w project_file <> None) by (unfold manifest in HT; congruence).
    assert (HT1 : manifest w1 = Some T').
    { unfold manifest. rewrite Hfs1. unfold put.
      destruct (str_eq_dec project_file project_file); [reflexivity|easy]. }
    destruct (add_files_run files w1 T' _ HT1 eq_refl)
      as (w2 & -> & Hfs2 & _).
    cbn [snd]. rewrite Hfs2. clear Hfs2.
    destruct (str_eq_dec T' T) as [Esame|Hdiff].
    + (* no anchor in the text: whatever is staged, the text stays *)
      destruct (registrations (fs w1) (entropy w1) T' (drawn w1) files)
        as [|r1 regs1]; [reflexivity|].
      intros p. unfold put at 1.
      destruct (str_eq_dec p project_file) as [->|]; [|reflexivity].
      fold (manifest w1). rewrite HT1, Esame. f_equal.
      apply apply_insertions_fixed. apply (apply_insertions_fixed T st).
      exact Esame.
    + (* some splice applied: every name now occurs in the text *)
      rewrite registrations_none; [reflexivity|].
      intros p g Hin Hdisk. rewrite Hfs1, on_disk_put in Hdisk by assumption.
      apply occurs_isin.
      pose proof (basename_no_slash p) as Hslash.
      pose proof (Hsafe p g eq_refl Hin Hdisk) as Hs.
      destruct (isin (basename p) T) eqn:Hold.
      * apply old_names_stay; try assumption. now apply isin_occurs.
      * destruct (registrations_mem (fs w) (entropy w) T files p g Hin Hdisk
                    Hold (drawn w)) as (r & Hr & Ename).
        fold regs in Hr. rewrite Eregs in Hr.
        rewrite <- Ename in *.
        now apply (new_names_arrive T (r0 :: regs0) r).
Qed.

(** X12.  The script as shipped, with its own list of eight files, can be
    run again safely on every manifest that ends with a newline: the second
    run leaves every file as the first run left it, whichever of the eight
    files are on disk. *)
Theorem shipped_script_second_run_changes_nothing :
  forall w T,
    manifest w = Some T ->
    ends_with NL T ->
    forall p,
      fs (snd (add_files_to_xcode_project (snd (add_files_to_xcode_project w)))) p
      = fs (snd (add_files_to_xcode_project w)) p.
Proof.
  intros w T HT Hend. unfold add_files_to_xcode_project.
  apply (second_run_fixed files_to_add w).
  intros T' p g HT' Hin _. rewrite HT in HT'. injection HT' as <-.
  unfold safe_name. rewrite (ends_with_last _ _ Hend).
  unfold files_to_add in Hin. cbn [In] in Hin.
  repeat (destruct Hin as [Hin|Hin];
          [injection Hin as <- <-; vm_compute; reflexivity|]).
  destruct Hin.
Qed.

Lemma shipped_script_second_run_changes_nothing_witness :
  fs (snd (add_files_to_xcode_project
             (snd (add_files_to_xcode_project single_world)))) project_file
  = fs (snd (add_files_to_xcode_project single_world)) project_file.
Proof.
  apply (shipped_script_second_run_changes_nothing single_world example_manifest).
  - reflexivity.
  - exists (removelast example_manifest). vm_compute. reflexivity.
Defined.

(* ===================================================================== *)
(** * add_files_to_xcode.py: reading the records back *)
(* ===================================================================== *)

Module SplitFacts.
Import CoreData.

Lemma hex_not_space c : is_upper_hex c = true -> is_space c = false.
Proof.
  unfold is_upper_hex. cbn [existsb lit list_ascii_of_string].
  rewrite !orb_true_iff. intros H.
  repeat (destruct H as [H | H];
          [apply Ascii.eqb_eq in H; subst; reflexivity |]).
  discriminate.
Qed.

Lemma hex_not_slash u : forallb is_upper_hex u = true -> ~ In "/"%char u.
Proof.
  intros H Hin. rewrite forallb_forall in H. specialize (H _ Hin).
  discriminate.
Qed.

(** The scan reads a word up to the next white space. *)
Lemma split_ws_word u c rest :
  is_space c = true ->
  (forall x, In x u -> is_space x = false) ->
  forall word, word ++ u <> [] ->
  split_ws (u ++ c :: rest) word = (word ++ u) :: split_ws rest [].
Proof.
  intros Hc. induction u as [|x u IH]; intros Hu word Hne.
  - rewrite app_nil_r in *. destruct word as [|y word]; [congruence|].
    cbn [app split_ws]. now rewrite Hc.
  - cbn [app split_ws]. rewrite (Hu x) by now left.
    rewrite IH.
    + now rewrite <- app_assoc.
    + intros y Hy. apply Hu. now right.
    + rewrite <- app_assoc. cbn [app]. now destruct word.
Qed.

(** The first word of a record is its identity. *)
Lemma first_word_of_record u rest :
  hex_token u ->
  index (split ([TAB; TAB] ++ u ++ " "%char :: rest)) 0 = inl u.
Proof.
  intros [Hne Hu]. unfold split. cbn [app]. cbn [split_ws].
  change (is_space TAB) with true. cbn iota.
  rewrite split_ws_word; try reflexivity; try assumption.
  intros x Hx. apply hex_not_space.
  rewrite forallb_forall in Hu. now apply Hu.
Qed.

(** ** [split] with a separator *)

Lemma split_scan_fuel sep :
  sep <> [] ->
  forall f1 f2 s piece,
    (length s <= f1)%nat -> (length s <= f2)%nat ->
    split_scan f1 sep s piece = split_scan f2 sep s piece.
Proof.
  intros Hsep. induction f1 as [|f1 IH]; intros f2 s piece H1 H2.
  - destruct s; [|simpl in H1; lia].
    destruct f2; cbn [split_scan].
    + reflexivity.
    + destruct sep; [congruence|]. cbn [prefixb]. now rewrite app_nil_r.
  - destruct f2 as [|f2].
    + destruct s; [|simpl in H2; lia]. cbn [split_scan].
      destruct sep; [congruence|]. cbn [prefixb]. now rewrite app_nil_r.
    + cbn [split_scan]. destruct (prefixb sep s) eqn:P.
      * f_equal. apply IH; rewrite length_skipn;
          destruct sep; try congruence; simpl length; lia.
      * destruct s as [|c s]; [reflexivity|]. simpl in H1, H2.
        apply IH; lia.
Qed.

(** At the separator, a piece ends. *)
Lemma split_scan_hit sep rest fuel piece :
  sep <> [] -> (length (sep ++ rest) <= fuel)%nat ->
  split_scan fuel sep (sep ++ rest) piece
  = piece :: split_scan (length rest) sep rest [].
Proof.
  intros Hsep Hf. destruct fuel as [|fuel].
  - destruct sep; [congruence|]. simpl in Hf. lia.
  - cbn [split_scan]. rewrite prefixb_app. f_equal.
    rewrite skipn_app, skipn_all, Nat.sub_diag. cbn [app skipn].
    apply split_scan_fuel; [assumption| |lia].
    rewrite length_app in Hf. destruct sep; [congruence|].
    simpl in Hf. lia.
Qed.

(** Elsewhere, the scan moves on one character. *)
Lemma split_scan_step sep c s fuel piece :
  sep <> [] -> prefixb sep (c :: s) = false ->
  (length (c :: s) <= fuel)%nat ->
  split_scan fuel sep (c :: s) piece
  = split_scan (length s) sep s (piece ++ [c]).
Proof.
  intros Hsep P Hf. destruct fuel as [|fuel]; [simpl in Hf; lia|].
  cbn [split_scan]. rewrite P.
  apply split_scan_fuel; [assumption| |lia]. simpl in Hf. lia.
Qed.

(** The scan passes over text that lacks the first character of the
    separator. *)
Lemma split_scan_skip_head c sep a s fuel piece :
  ~ In c a -> (length (a ++ s) <= fuel)%nat ->
  split_scan fuel (c :: sep) (a ++ s) piece
  = split_scan (length s) (c :: sep) s (piece ++ a).
Proof.
  revert fuel piece. induction a as [|x a IH]; intros fuel piece Hc Hf.
  - rewrite app_nil_r. apply split_scan_fuel; simpl in *; try lia.
    discriminate.
  - cbn [app]. rewrite split_scan_step; try discriminate; try assumption.
    + rewrite IH.
      * now rewrite <- app_assoc.
      * intros Hin. apply Hc. now right.
      * lia.
    + cbn [prefixb]. destruct (Ascii.eqb c x) eqn:E; [|reflexivity].
      apply Ascii.eqb_eq in E. subst. exfalso. apply Hc. now left.
Qed.

(** The scan for a separator of two different characters passes over text
    that lacks the second one, when the text is not followed by it. *)
Lemma split_scan_skip_second c1 c2 a s fuel piece :
  c1 <> c2 -> ~ In c2 a -> hd c1 s <> c2 ->
  (length (a ++ s) <= fuel)%nat ->
  split_scan fuel [c1; c2] (a ++ s) piece
  = split_scan (length s) [c1; c2] s (piece ++ a).
Proof.
  intros Hd. revert fuel piece.
  induction a as [|x a IH]; intros fuel piece Hc Hs Hf.
  - rewrite app_nil_r. apply split_scan_fuel; simpl in *; try lia.
    discriminate.
  - cbn [app]. rewrite split_scan_step; try discriminate; try assumption.
    + rewrite IH; try assumption.
      * now rewrite <- app_assoc.
      * intros Hin. apply Hc. now right.
      * lia.
    + cbn [prefixb]. destruct (Ascii.eqb c1 x) eqn:E; [|reflexivity].
      cbn [andb]. destruct (a ++ s) as [|y t] eqn:Et; [reflexivity|].
      destruct (Ascii.eqb c2 y) eqn:E2; [|reflexivity].
      apply Ascii.eqb_eq in E2. subst y. exfalso.
      destruct a as [|z a].
      * cbn [app] in Et. subst s. now apply Hs.
      * cbn [app] in Et. injection Et as -> _. apply Hc. right. now left.
Qed.

End SplitFacts.

Module RecordFacts.
Import CoreData SplitFacts.

Lemma not_in_app (c : ascii) a b : ~ In c a -> ~ In c b -> ~ In c (a ++ b).
Proof. rewrite in_app_iff. tauto. Qed.

Lemma not_in_lit (c : ascii) l : existsb (Ascii.eqb c) l = false -> ~ In c l.
Proof.
  intros H Hin. assert (E : existsb (Ascii.eqb c) l = true).
  { apply existsb_exists. exists c. split; [assumption|apply Ascii.eqb_refl]. }
  congruence.
Qed.

Ltac no_char :=
  repeat apply not_in_app;
  try assumption; try (apply not_in_lit; reflexivity);
  try (apply hex_not_slash; assumption).

(** [split('/*')] on text with two opening comment marks, and one slash
    between them that opens no comment. *)
Lemma split_on_open a0 a1 c a2 rest :
  ~ In "/"%char a0 -> ~ In "/"%char a1 -> ~ In "/"%char (c :: a2) ->
  c <> "*"%char ->
  exists tl,
    split_on (a0 ++ lit "/*" ++ a1 ++ "/"%char :: c :: a2 ++ lit "/*" ++ rest)
             (lit "/*")
    = inl (a0 :: (a1 ++ "/"%char :: c :: a2) :: tl).
Proof.
  intros H0 H1 H2 Hc. unfold split_on, lit. cbn [list_ascii_of_string].
  eexists. f_equal.
  rewrite split_scan_skip_head by (assumption || apply Nat.le_refl).
  rewrite split_scan_hit by (discriminate || apply Nat.le_refl).
  cbn [app]. f_equal.
  rewrite split_scan_skip_head by (assumption || apply Nat.le_refl).
  rewrite split_scan_step; [|discriminate| |apply Nat.le_refl].
  2:{ cbn [prefixb]. destruct (Ascii.eqb "*" c) eqn:E; [|reflexivity].
      apply Ascii.eqb_eq in E. congruence. }
  change (c :: a2 ++ "/"%char :: "*"%char :: rest)
    with ((c :: a2) ++ ["/"; "*"]%char ++ rest).
  rewrite split_scan_skip_head by (assumption || apply Nat.le_refl).
  rewrite split_scan_hit by (discriminate || apply Nat.le_refl).
  cbn [app]. rewrite <- app_assoc. cbn [app]. reflexivity.
Qed.

(** [split('*/')] on text whose first closing comment mark follows text
    without a slash. *)
Lemma split_on_close b0 rest :
  ~ In "/"%char b0 ->
  exists tl, split_on (b0 ++ lit "*/" ++ rest) (lit "*/") = inl (b0 :: tl).
Proof.
  intros H0. unfold split_on, lit. cbn [list_ascii_of_string].
  eexists. f_equal.
  rewrite split_scan_skip_second;
    [|discriminate|assumption|discriminate|apply Nat.le_refl].
  rewrite split_scan_hit by (discriminate || apply Nat.le_refl).
  cbn [app]. reflexivity.
Qed.

Lemma lstrip_app n t :
  lstrip (n ++ t) = if forallb is_space n then lstrip t else lstrip n ++ t.
Proof.
  induction n as [|c n IH]; [reflexivity|].
  cbn [app lstrip forallb]. destruct (is_space c); [exact IH|reflexivity].
Qed.

Lemma rstrip_space s : rstrip (s ++ lit " ") = rstrip s.
Proof. unfold rstrip. now rewrite rev_app_distr. Qed.

(** The comment of a build record, stripped. *)
Lemma strip_comment name :
  strip (lit " " ++ name ++ lit " in Sources ")
  = strip (name ++ lit " in Sources").
Proof.
  unfold strip. change (lit " " ++ ?x) with (" "%char :: x).
  cbn [lstrip]. change (is_space " ") with true. cbn iota.
  change (lit " in Sources ") with (lit " in Sources" ++ lit " ").
  rewrite app_assoc, (lstrip_app (name ++ _)).
  destruct (forallb is_space (name ++ lit " in Sources")) eqn:E.
  - rewrite forallb_app in E. apply andb_true_iff in E as [_ E].
    discriminate.
  - apply rstrip_space.
Qed.

(** A name that starts with a visible character is not touched. *)
Lemma strip_visible name :
  is_space (hd " "%char name) = false ->
  strip (name ++ lit " in Sources") = name ++ lit " in Sources".
Proof.
  intros H. destruct name as [|c name]; [discriminate|]. cbn [hd] in H.
  unfold strip. cbn [app lstrip]. rewrite H.
  unfold rstrip.
  change (c :: name ++ lit " in Sources")
    with ((c :: name) ++ lit " in Sources").
  rewrite rev_app_distr.
  change (rev (lit " in Sources")) with ("s"%char :: rev (lit " in Source")).
  cbn [app lstrip]. change (is_space "s") with false. cbn iota.
  change ("s"%char :: rev (lit " in Source") ++ rev (c :: name))
    with (rev (lit " in Sources") ++ rev (c :: name)).
  rewrite <- rev_app_distr. apply rev_involutive.
Qed.

(** The three readings of a build record. *)
Lemma build_record_first_word bu fu name :
  hex_token bu ->
  index (split (build_file_line bu fu name)) 0 = inl bu.
Proof.
  intros H. unfold build_file_line.
  change (lit " /* ") with (" "%char :: lit "/* ").
  cbn [app]. now apply first_word_of_record.
Qed.

Lemma build_record_pieces bu fu name :
  forallb is_upper_hex bu = true -> forallb is_upper_hex fu = true ->
  ~ In "/"%char name ->
  exists tl,
    split_on (build_file_line bu fu name) (lit "/*")
    = inl (([TAB; TAB] ++ bu ++ lit " ")
           :: (lit " " ++ name ++ lit " in Sources " ++ lit "*/" ++
               lit " = {isa = PBXBuildFile; fileRef = " ++ fu ++ lit " ")
           :: tl).
Proof.
  intros Hb Hf Hn.
  destruct (split_on_open ([TAB; TAB] ++ bu ++ lit " ")
              (lit " " ++ name ++ lit " in Sources *") " "%char
              (lit "= {isa = PBXBuildFile; fileRef = " ++ fu ++ lit " ")
              (lit " " ++ name ++ lit " */; };")) as [tl E].
  - no_char.
  - no_char.
  - change (~ In "/"%char (lit " " ++
              lit "= {isa = PBXBuildFile; fileRef = " ++ fu ++ lit " ")).
    no_char.
  - discriminate.
  - exists tl.
    match type of E with
    | split_on ?t _ = _ => replace (build_file_line bu fu name) with t
    end.
    + rewrite E. do 2 f_equal. f_equal. rewrite <- !app_assoc. reflexivity.
    + unfold build_file_line. rewrite <- !app_assoc. reflexivity.
Qed.

Lemma build_record_comment fu name :
  ~ In "/"%char name ->
  exists tl,
    split_on (lit " " ++ name ++ lit " in Sources " ++ lit "*/" ++
              lit " = {isa = PBXBuildFile; fileRef = " ++ fu ++ lit " ")
             (lit "*/")
    = inl ((lit " " ++ name ++ lit " in Sources ") :: tl).
Proof.
  intros Hn.
  destruct (split_on_close (lit " " ++ name ++ lit " in Sources ")
              (lit " = {isa = PBXBuildFile; fileRef = " ++ fu ++ lit " "))
    as [tl E].
  - no_char.
  - exists tl. rewrite <- E. f_equal. rewrite <- !app_assoc. reflexivity.
Qed.

(** What lines 58 and 59 read from a build record. *)
Lemma build_phase_fields_record bu fu name :
  hex_token bu -> forallb is_upper_hex fu = true -> ~ In "/"%char name ->
  build_phase_fields (build_file_line bu fu name)
  = inl (bu, strip (name ++ lit " in Sources")).
Proof.
  intros Hb Hf Hn. unfold build_phase_fields.
  rewrite build_record_first_word by assumption.
  destruct (build_record_pieces bu fu name) as [tl ->];
    [apply Hb|assumption|assumption|].
  cbn [index nth_error].
  destruct (build_record_comment fu name Hn) as [tl' ->].
  cbn [index nth_error]. now rewrite strip_comment.
Qed.

End RecordFacts.

(* ===================================================================== *)
(** * add_files_to_xcode.py: the run *)
(* ===================================================================== *)

Module ReportFacts.
Import CoreData SplitFacts RecordFacts.
Local Open Scope cd_scope.

Lemma bindN_run {A B} (c : N A) (k : A -> N B) w a w' :
  c w = (inl a, w') -> bindN c k w = k a w'.
Proof. intros E. unfold bindN. now rewrite E. Qed.

Lemma lift_print_run s w : lift (print s) w = (inl tt, advance w 0 [s]).
Proof. reflexivity. Qed.

Lemma lift_generate_run w :
  lift generate_xcode_uuid w
  = (inl (identity (entropy w) (drawn w)), advance w 1 []).
Proof. unfold lift. now rewrite generate_run. Qed.

Lemma advance_zero w : advance w 0 [] = w.
Proof. unfold advance; simpl. rewrite app_nil_r. now destruct w. Qed.

Lemma print_loop lines w :
  for_eachN lines (fun ref _ => lift (print ref)) tt w
  = (inl tt, advance w 0 lines).
Proof.
  revert w; induction lines as [|x rest IH]; intros w.
  - cbn [for_eachN]. unfold retN. now rewrite advance_zero.
  - cbn [for_eachN]. erewrite bindN_run by apply lift_print_run.
    now rewrite IH, advance_advance.
Qed.

(** ** The records *)

Lemma identity_hex_token rnd k : hex_token (identity rnd k).
Proof.
  unfold identity. split.
  - intros E. pose proof (UuidFacts.leading24_length (Uuid.uuid4 (rnd k))) as L.
    rewrite E in L. discriminate.
  - apply UuidFacts.leading24_hex.
Qed.

Lemma model_records_wf rnd paths :
  forall k r, In r (model_records rnd k paths) ->
    hex_token (model_file_uuid r) /\ hex_token (model_build_uuid r) /\
    ~ In "/"%char (model_name r).
Proof.
  induction paths as [|p rest IH]; intros k r H; [destruct H|].
  destruct H as [<- | H]; [|now apply (IH _ _ H)].
  cbn [model_file_uuid model_build_uuid model_name].
  repeat split; try apply identity_hex_token. apply basename_no_slash.
Qed.

Lemma model_records_length rnd paths :
  forall k, length (model_records rnd k paths) = length paths.
Proof.
  induction paths as [|p rest IH]; intros k; [reflexivity|].
  cbn [model_records length]. now rewrite IH.
Qed.

Lemma insert_sorted_length x l :
  length (insert_sorted x l) = S (length l).
Proof.
  induction l as [|y l IH]; [reflexivity|].
  cbn [insert_sorted]. destruct (str_leb x y); cbn [length]; now rewrite ?IH.
Qed.

Lemma sorted_length l : length (sorted l) = length l.
Proof.
  induction l as [|x l IH]; [reflexivity|].
  unfold sorted in *. cbn [fold_right].
  now rewrite insert_sorted_length, IH.
Qed.

(** ** The first loop *)

Lemma mint_loop paths :
  forall refs builds w,
    for_eachN paths
      (fun file_path '(file_refs, build_files) =>
         let filename := basename file_path in
         file_uuid <- lift generate_xcode_uuid ;;
         build_uuid <- lift generate_xcode_uuid ;;
         let file_ref := CoreData.file_ref_line file_uuid filename in
         let build_file := build_file_line build_uuid file_uuid filename in
         lift (print (lit "  " ++ filename ++ lit " -> " ++ file_uuid)) ;;
         retN (file_refs ++ [file_ref], build_files ++ [build_file]))
      (refs, builds) w
    = (inl (refs ++ map model_file_ref
                        (model_records (entropy w) (drawn w) paths),
            builds ++ map model_build_file
                          (model_records (entropy w) (drawn w) paths)),
       advance w (2 * length paths)
         (map (fun r => lit "  " ++ model_name r ++ lit " -> " ++
                        model_file_uuid r)
              (model_records (entropy w) (drawn w) paths))).
Proof.
  induction paths as [|p rest IH]; intros refs builds w.
  - cbn [for_eachN model_records map length]. unfold retN.
    now rewrite !app_nil_r, advance_zero.
  - cbn [for_eachN]. unfold bindN at 1. cbv zeta.
    erewrite bindN_run by apply lift_generate_run.
    erewrite bindN_run by apply lift_generate_run.
    erewrite bindN_run by apply lift_print_run.
    unfold retN. rewrite IH. rewrite !advance_advance.
    cbn [model_records map entropy drawn advance length].
    replace (0 + (1 + (1 + drawn w)))%nat with (S (S (drawn w))) by lia.
    replace (1 + drawn w)%nat with (S (drawn w)) by lia.
    rewrite <- !app_assoc. cbn [app].
    unfold model_file_ref at 2, model_build_file at 2.
    cbn [model_name model_file_uuid model_build_uuid].
    f_equal. f_equal. lia.
Qed.

(** ** The group entries *)

Lemma file_record_first_word u name :
  hex_token u -> index (split (CoreData.file_ref_line u name)) 0 = inl u.
Proof.
  intros H. unfold CoreData.file_ref_line.
  change (lit " /* ") with (" "%char :: lit "/* ").
  cbn [app]. now apply first_word_of_record.
Qed.

Lemma name_in_model_file_ref r : occurs (model_name r) (model_file_ref r).
Proof.
  unfold model_file_ref, CoreData.file_ref_line.
  exists ([TAB; TAB] ++ model_file_uuid r ++ lit " /* ").
  eexists. rewrite <- !app_assoc. reflexivity.
Qed.

Lemma first_of_filter {A B} (f : B -> bool) (g : A -> B) l :
  index (filter f (map g l)) 0
  = match List.find (fun x => f (g x)) l with
    | Some x => inl (g x)
    | None => inr IndexError
    end.
Proof.
  induction l as [|x l IH]; [reflexivity|].
  cbn [map filter List.find]. destruct (f (g x)); [reflexivity|exact IH].
Qed.

Lemma find_first_match {A} (f : A -> bool) l1 x l2 :
  (forall y, In y l1 -> f y = false) -> f x = true ->
  List.find f (l1 ++ x :: l2) = Some x.
Proof.
  intros H Hx. induction l1 as [|y l1 IH].
  - cbn [app List.find]. now rewrite Hx.
  - cbn [app List.find]. rewrite (H y) by now left.
    apply IH. intros z Hz. apply H. now right.
Qed.

Lemma group_entry_shown recs r :
  (forall r', In r' recs -> hex_token (model_file_uuid r')) ->
  In r recs ->
  group_entry_uuid (map model_file_ref recs) (model_name r)
  = inl (shown_identity recs (model_name r)).
Proof.
  intros Hu Hr. unfold group_entry_uuid, shown_identity.
  rewrite first_of_filter.
  destruct (List.find _ recs) as [r'|] eqn:F.
  - apply find_some in F as [Hin _].
    apply file_record_first_word. now apply Hu.
  - exfalso. apply (find_none _ _ F) in Hr.
    pose proof (occurs_isin _ _ (name_in_model_file_ref r)). congruence.
Qed.

Lemma lookup_loop all rnd :
  (forall r, In r all -> hex_token (model_file_uuid r)) ->
  forall paths k w,
    (forall r, In r (model_records rnd k paths) -> In r all) ->
    for_eachN paths
      (fun file_path _ =>
         let filename := basename file_path in
         file_uuid <- try_ (group_entry_uuid (map model_file_ref all)
                                             filename) ;;
         lift (print (list_entry file_uuid filename)))
      tt w
    = (inl tt,
       advance w 0
         (map (fun r => list_entry (shown_identity all (model_name r))
                                   (model_name r))
              (model_records rnd k paths))).
Proof.
  intros Hu. induction paths as [|p rest IH]; intros k w Hall.
  - cbn [for_eachN model_records map]. unfold retN.
    now rewrite advance_zero.
  - cbn [for_eachN model_records map]. unfold bindN at 1. cbv zeta.
    unfold bindN at 1, try_ at 1.
    pose proof (group_entry_shown all
                  (mkModel (basename p) (identity rnd k) (identity rnd (S k)))
                  Hu) as G.
    cbn [model_name] in G. rewrite G by (apply Hall; now left).
    rewrite lift_print_run.
    rewrite (IH (S (S k))), advance_advance.
    + reflexivity.
    + intros r Hr. apply Hall. now right.
Qed.

(** ** The build phase entries *)

Lemma build_loop recs :
  (forall r, In r recs ->
     hex_token (model_file_uuid r) /\ hex_token (model_build_uuid r) /\
     ~ In "/"%char (model_name r)) ->
  forall w,
    for_eachN (map model_build_file recs)
      (fun build _ =>
         fields <- try_ (build_phase_fields build) ;;
         let '(build_uuid, filename) := fields in
         lift (print (list_entry build_uuid filename)))
      tt w
    = (inl tt,
       advance w 0
         (map (fun r => list_entry (model_build_uuid r)
                          (strip (model_name r ++ lit " in Sources")))
              recs)).
Proof.
  induction recs as [|r rest IH]; intros Hwf w.
  - cbn [for_eachN map]. unfold retN. now rewrite advance_zero.
  - cbn [for_eachN map]. unfold bindN at 1.
    unfold bindN at 1, try_ at 1.
    destruct (Hwf r (or_introl eq_refl)) as (Hf & Hb & Hn).
    unfold model_build_file at 1.
    rewrite build_phase_fields_record; [|assumption|apply Hf|assumption].
    rewrite lift_print_run.
    rewrite IH, advance_advance.
    + reflexivity.
    + intros r' Hr'. apply Hwf. now right.
Qed.

End ReportFacts.




(** X15.  The identity of a group entry (line 52).  The entry printed for
    a display name carries the file identity of the first record, in the
    sorted order, whose line shows that name anywhere, be it the record of
    another file. *)
Theorem group_entry_shows_the_first_matching_record :
  forall recs1 r recs2 name,
    (forall r', In r' recs1 -> isin name (model_file_ref r') = false) ->
    isin name (model_file_ref r) = true ->
    hex_token (model_file_uuid r) ->
    CoreData.group_entry_uuid (map model_file_ref (recs1 ++ r :: recs2)) name
    = inl (model_file_uuid r).
Proof.
  intros recs1 r recs2 name H1 Hr Hu. unfold CoreData.group_entry_uuid.
  rewrite ReportFacts.first_of_filter.
  rewrite (ReportFacts.find_first_match
             (fun x => isin name (model_file_ref x))) by assumption.
  now apply ReportFacts.file_record_first_word.
Qed.

Lemma group_entry_shows_the_first_matching_record_witness :
  CoreData.group_entry_uuid
    (map model_file_ref
       ([] ++
        mkModel (lit "AZeta.swift") (identity spread_entropy 0)
                (identity spread_entropy 1)
        :: [mkModel (lit "Zeta.swift") (identity spread_entropy 2)
                    (identity spread_entropy 3)]))
    (lit "Zeta.swift")
  = inl (identity spread_entropy 0).
Proof.
  apply (group_entry_shows_the_first_matching_record
           [] (mkModel (lit "AZeta.swift") (identity spread_entropy 0)
                       (identity spread_entropy 1))).
  - intros r' [].
  - vm_compute. reflexivity.
  - split; [vm_compute; discriminate | vm_compute; reflexivity].
Defined.

(** X16.  A display name that is part of the file type of the record
    template, [sourcecode.swift], shows in every record: its group entry
    carries the identity of the first file of the run. *)
Theorem template_word_is_listed_with_the_first_identity :
  forall r recs name,
    isin name (lit "sourcecode.swift") = true ->
    hex_token (model_file_uuid r) ->
    CoreData.group_entry_uuid (map model_file_ref (r :: recs)) name
    = inl (model_file_uuid r).
Proof.
  intros r recs name Hn Hu. unfold CoreData.group_entry_uuid.
  rewrite ReportFacts.first_of_filter. cbn [List.find].
  replace (isin name (model_file_ref r)) with true;
    [now apply ReportFacts.file_record_first_word|].
  symmetry. apply occurs_isin. apply isin_occurs in Hn.
  apply (occurs_trans _ _ _ Hn).
  unfold model_file_ref, CoreData.file_ref_line.
  exists ([TAB; TAB] ++ model_file_uuid r ++ lit " /* " ++ model_name r ++
          lit " */ = {isa = PBXFileReference; lastKnownFileType = ").
  exists (lit "; path = " ++ [DQUOTE] ++ model_name r ++ [DQUOTE] ++
          lit "; sourceTree = " ++ [DQUOTE] ++ lit "<group>" ++ [DQUOTE] ++
          lit "; };").
  rewrite <- !app_assoc. reflexivity.
Qed.

Lemma template_word_is_listed_with_the_first_identity_witness :
  CoreData.group_entry_uuid
    (map model_file_ref
       [mkModel (lit "User.swift") (identity spread_entropy 0)
                (identity spread_entropy 1);
        mkModel (lit "code.swift") (identity spread_entropy 2)
                (identity spread_entropy 3)])
    (lit "code.swift")
  = inl (identity spread_entropy 0).
Proof.
  apply (template_word_is_listed_with_the_first_identity
           (mkModel (lit "User.swift") (identity spread_entropy 0)
                    (identity spread_entropy 1))).
  - vm_compute. reflexivity.
  - split; [vm_compute; discriminate | vm_compute; reflexivity].
Defined.
